(** * Twitter-Clone: the feed query service, the like toggle and the client's
      cross-cache like update

    Shallow embedding of
    - [src/server/api/routers/tweet.ts]  (tRPC router: [infiniteProfileFeed],
      [infiniteFeed], [create], [toggleLike], [getInfiniteTweets]);
    - [src/components/InfiniteTweetList.tsx]  ([InfiniteTweetList], and the
      [onSuccess] handler of [TweetCard] with its [updateData] updater).

    Conventions.  A JS [Date] is its millisecond time value in [Z]; a JS
    [number] that the code uses as a count or a limit is in [Z]; [undefined]
    and [null] of an optional value are [None]; a thrown error is [Err]. *)

From Stdlib Require Import ZArith Bool List Lia.
From stdpp Require Import base option list sorting strings gmap.

Open Scope Z_scope.

(** ** Values exchanged between the router and the client *)

Definition Date := Z.

(** [{ id: string; createdAt: Date }], the zod object of the [cursor] input. *)
Record Cursor := mkCursor { cursor_id : string; cursor_createdAt : Date }.

(** [user: { select: { name: true, id: true, image: true } }] on the server,
    [user: { id; image: string | null; name: string | null }] on the client. *)
Record TweetUser := mkTweetUser {
  user_id : string;
  user_name : option string;
  user_image : option string
}.

(** [interface Tweet] of InfiniteTweetList.tsx; also the shape of the objects
    built by the [data.map] of [getInfiniteTweets]. *)
Record Tweet := mkTweet {
  tweet_id : string;
  tweet_content : string;
  tweet_createdAt : Date;
  tweet_likeCount : Z;
  tweet_likedByMe : bool;
  tweet_user : TweetUser
}.

(** The object returned by [getInfiniteTweets]: [{ tweets, nextCursor }]. *)
Record FeedPage := mkFeedPage {
  page_tweets : list Tweet;
  page_nextCursor : option Cursor
}.

(** Errors as values. *)
Inductive Result (E A : Type) : Type :=
| Ok (a : A)
| Err (e : E).
Arguments Ok {E A} a.
Arguments Err {E A} e.

Definition bind {E A B} (r : Result E A) (k : A -> Result E B) : Result E B :=
  match r with
  | Ok a => k a
  | Err e => Err e
  end.

Notation "'await' x <- e ; k" := (bind e (fun x => k))
  (at level 10, x name, e at level 100, k at level 200).

(** ** The storage collaborator (Prisma Client over the relational store) *)

Module Prisma.

(** Modelled from the spec: the schema ([prisma/schema.prisma]) is not under
    src/.  The three tables carry the columns the router reads and writes:
    a Like is identified by [(userId, tweetId)]; a Tweet has [id],
    [content], [createdAt] and its author's [userId]; a User has the public
    subset [id], [name], [image] and the ids of its followers. *)
Record UserRow := mkUserRow {
  u_id : string;
  u_name : option string;
  u_image : option string;
  u_followers : list string
}.

Record TweetRow := mkTweetRow {
  t_id : string;
  t_content : string;
  t_createdAt : Date;
  t_userId : string
}.

Record LikeRow := mkLikeRow {
  l_userId : string;
  l_tweetId : string
}.

Record Database := mkDatabase {
  userTable : list UserRow;
  tweetTable : list TweetRow;
  likeTable : list LikeRow
}.

Global Instance LikeRow_eq_dec : EqDecision LikeRow.
Proof. solve_decision. Defined.

(** The two [Prisma.TweetWhereInput] values the router builds:
    [{ userId }] and [{ user: { followers: { some: { id } } } }]. *)
Inductive TweetWhereInput :=
| WhereUserId (userId : string)
| WhereUserFollowersSome (id : string).

(** The argument of [ctx.prisma.tweet.findMany] as [getInfiniteTweets]
    builds it.  [orderBy] is always [[{createdAt:"desc"},{id:"desc"}]] and
    the scalar part of [select] is fixed, so only the varying parts are
    fields: [take], [cursor] (the [createdAt_id] compound key), [where] and
    the [Likes] entry of [select] ([None] for [false], [Some u] for
    [{ where: { userId: u } }]). *)
Record TweetFindManyArgs := mkFindManyArgs {
  args_take : Z;
  args_cursor : option Cursor;
  args_where : option TweetWhereInput;
  args_select_Likes : option string
}.

(** A row as [findMany] returns it under that [select]. *)
Record RawTweet := mkRawTweet {
  raw_id : string;
  raw_content : string;
  raw_createdAt : Date;
  raw_count_Likes : nat;
  raw_Likes : option (list LikeRow);
  raw_user : TweetUser
}.

Inductive PrismaError :=
| UniqueConstraintFailed
| RecordNotFound.

(** Sort keys [(createdAt, id)].  [key_leb k1 k2] says that [k1] sorts at
    or before [k2] under [orderBy: [{createdAt:"desc"},{id:"desc"}]]; ids
    are compared bytewise. *)
Definition SortKey : Type := Date * string.

Definition key_leb (k1 k2 : SortKey) : bool :=
  (k2.1 <? k1.1) || ((k1.1 =? k2.1) && String.leb k2.2 k1.2).

Definition sortKey (t : TweetRow) : SortKey := (t_createdAt t, t_id t).
Definition cursorKey (c : Cursor) : SortKey := (cursor_createdAt c, cursor_id c).

Definition orderBy (a b : TweetRow) : Prop := key_leb (sortKey a) (sortKey b).

Global Instance orderBy_dec : RelDecision orderBy.
Proof. intros a b. unfold orderBy. apply _. Defined.

(** [where]: which tweets a where-clause admits. *)
Definition follows (db : Database) (follower author : string) : bool :=
  match List.find (fun u => String.eqb (u_id u) author) (userTable db) with
  | Some u => existsb (String.eqb follower) (u_followers u)
  | None => false
  end.

Definition matches (db : Database) (w : option TweetWhereInput) (t : TweetRow) : bool :=
  match w with
  | None => true
  | Some (WhereUserId userId) => String.eqb (t_userId t) userId
  | Some (WhereUserFollowersSome id) => follows db id (t_userId t)
  end.

(** [select]: the like count, the viewer's likes and the author subset.
    The author always exists under the schema's foreign key; a dangling
    reference reads as an author with null name and image. *)
Definition likes_of (db : Database) (tweetId : string) : list LikeRow :=
  List.filter (fun l => String.eqb (l_tweetId l) tweetId) (likeTable db).

Definition select_user (db : Database) (userId : string) : TweetUser :=
  match List.find (fun u => String.eqb (u_id u) userId) (userTable db) with
  | Some u => mkTweetUser (u_id u) (u_name u) (u_image u)
  | None => mkTweetUser userId None None
  end.

Definition select (db : Database) (selLikes : option string) (t : TweetRow) : RawTweet :=
  {| raw_id := t_id t;
     raw_content := t_content t;
     raw_createdAt := t_createdAt t;
     raw_count_Likes := length (likes_of db (t_id t));
     raw_Likes :=
       match selLikes with
       | None => None
       | Some userId =>
           Some (List.filter (fun l => String.eqb (l_userId l) userId) (likes_of db (t_id t)))
       end;
     raw_user := select_user db (t_userId t) |}.

Definition cursor_row (db : Database) (c : Cursor) : option TweetRow :=
  List.find (fun t => String.eqb (t_id t) (cursor_id c) && (t_createdAt t =? cursor_createdAt c))
            (tweetTable db).

Definition lastn {A} (n : nat) (l : list A) : list A := drop (length l - n)%nat l.

(** [prisma.tweet.findMany].  The admitted rows are ordered; with a cursor
    the list starts AT the cursor's row (Prisma's cursor is inclusive: to
    leave the cursor's row out a caller adds [skip: 1], which this router
    does not), and is empty when no row has the cursor's key; [take] rows
    are kept, from the front for [take >= 0] and, for a negative [take],
    from the back of the rows up to the cursor. *)
Definition tweet_findMany (db : Database) (args : TweetFindManyArgs) : list RawTweet :=
  let backwards := args_take args <? 0 in
  let ordered := merge_sort orderBy (List.filter (matches db (args_where args)) (tweetTable db)) in
  let positioned :=
    match args_cursor args with
    | None => ordered
    | Some c =>
        match cursor_row db c with
        | None => []
        | Some _ =>
            List.filter
              (fun t => if backwards then key_leb (sortKey t) (cursorKey c)
                        else key_leb (cursorKey c) (sortKey t))
              ordered
        end
    end in
  let window :=
    if backwards then lastn (Z.to_nat (- args_take args)) positioned
    else take (Z.to_nat (args_take args)) positioned in
  map (select db (args_select_Likes args)) window.

(** [prisma.tweet.create]: the primary key [id] is unique. *)
Definition tweet_create (db : Database) (row : TweetRow) : Result PrismaError (Database * TweetRow) :=
  if existsb (fun t => String.eqb (t_id t) (t_id row)) (tweetTable db)
  then Err UniqueConstraintFailed
  else Ok (mkDatabase (userTable db) (tweetTable db ++ [row]) (likeTable db), row).

(** [where: { userId_tweetId: { tweetId, userId } }] *)
Definition like_key_eqb (userId tweetId : string) (l : LikeRow) : bool :=
  String.eqb (l_userId l) userId && String.eqb (l_tweetId l) tweetId.

(** [prisma.like.findUnique] *)
Definition like_findUnique (db : Database) (userId tweetId : string) : option LikeRow :=
  List.find (like_key_eqb userId tweetId) (likeTable db).

(** [prisma.like.create]: the storage-level uniqueness constraint on
    [(userId, tweetId)] rejects a second row for a pair. *)
Definition like_create (db : Database) (data : LikeRow) : Result PrismaError Database :=
  if existsb (like_key_eqb (l_userId data) (l_tweetId data)) (likeTable db)
  then Err UniqueConstraintFailed
  else Ok (mkDatabase (userTable db) (tweetTable db) (likeTable db ++ [data])).

(** [prisma.like.delete]: fails when no row has the key. *)
Definition like_delete (db : Database) (userId tweetId : string) : Result PrismaError Database :=
  if existsb (like_key_eqb userId tweetId) (likeTable db)
  then Ok (mkDatabase (userTable db) (tweetTable db)
                      (List.filter (fun l => negb (like_key_eqb userId tweetId l)) (likeTable db)))
  else Err RecordNotFound.

End Prisma.

(** ** The router: src/server/api/routers/tweet.ts *)

Module TweetRouter.
Import Prisma.

(** [ctx.session?.user.id] and [ctx.prisma]. *)
Record Session := mkSession { session_user_id : string }.

Record Context := mkContext {
  session : option Session;
  prisma : Database
}.

Inductive TRPCError :=
| UNAUTHORIZED
| INTERNAL_SERVER_ERROR (cause : PrismaError).

Definition storage {A} (r : Result PrismaError A) : Result TRPCError A :=
  match r with
  | Ok a => Ok a
  | Err e => Err (INTERNAL_SERVER_ERROR e)
  end.

(** Modelled from the spec: [protectedProcedure] of [~/server/api/trpc] is
    not under src/.  A mutation attempted without a valid session is
    rejected before business logic runs; otherwise the handler runs with
    [ctx.session.user.id]. *)
Definition protectedProcedure {A} (ctx : Context) (handler : string -> Result TRPCError A)
  : Result TRPCError A :=
  match session ctx with
  | None => Err UNAUTHORIZED
  | Some s => handler (session_user_id s)
  end.

(** [Array.prototype.pop]: the array without its last element, and that
    element ([undefined] on an empty array). *)
Definition pop {A} (l : list A) : list A * option A := (removelast l, last l).

(** The [findMany] argument of [getInfiniteTweets]. *)
Definition findManyArgs (whereClause : option TweetWhereInput) (currentUserId : option string)
                        (limit : Z) (cursor : option Cursor) : TweetFindManyArgs :=
  {| args_take := limit + 1;
     args_cursor := cursor;
     args_where := whereClause;
     args_select_Likes := currentUserId |}.

(** The callback of [data.map]; [tweet.Likes?.length > 0] is [false] when
    [Likes] was not selected. *)
Definition toTweet (tweet : RawTweet) : Tweet :=
  {| tweet_id := raw_id tweet;
     tweet_content := raw_content tweet;
     tweet_createdAt := raw_createdAt tweet;
     tweet_likeCount := Z.of_nat (raw_count_Likes tweet);
     tweet_user := raw_user tweet;
     tweet_likedByMe :=
       match raw_Likes tweet with
       | Some likes => 0 <? Z.of_nat (length likes)
       | None => false
       end |}.

(** The step between the query and the projection: [data] after the
    optional [pop], and [nextCursor]. *)
Definition splitNext (limit : Z) (data : list RawTweet) : list RawTweet * option Cursor :=
  if Z.of_nat (length data) >? limit then
    let '(data, nextItem) := pop data in
    match nextItem with
    | Some nextItem => (data, Some (mkCursor (raw_id nextItem) (raw_createdAt nextItem)))
    | None => (data, None)
    end
  else (data, None).

Definition getInfiniteTweets (whereClause : option TweetWhereInput) (ctx : Context)
                             (limit : Z) (cursor : option Cursor) : FeedPage :=
  let currentUserId := session_user_id <$> session ctx in
  let data := tweet_findMany (prisma ctx) (findManyArgs whereClause currentUserId limit cursor) in
  let '(data, nextCursor) := splitNext limit data in
  {| page_tweets := map toTweet data; page_nextCursor := nextCursor |}.

Record InfiniteProfileFeedInput := mkProfileFeedInput {
  pf_userId : string;
  pf_limit : option Z;
  pf_cursor : option Cursor
}.

Definition infiniteProfileFeed (input : InfiniteProfileFeedInput) (ctx : Context) : FeedPage :=
  let limit := default 10 (pf_limit input) in
  getInfiniteTweets (Some (WhereUserId (pf_userId input))) ctx limit (pf_cursor input).

Record InfiniteFeedInput := mkFeedInput {
  in_onlyFollowing : option bool;
  in_limit : option Z;
  in_cursor : option Cursor
}.

Definition infiniteFeed (input : InfiniteFeedInput) (ctx : Context) : FeedPage :=
  let limit := default 10 (in_limit input) in
  let onlyFollowing := default false (in_onlyFollowing input) in
  let currentUserId := session_user_id <$> session ctx in
  getInfiniteTweets
    match currentUserId with
    | None => None
    | Some currentUserId =>
        if negb onlyFollowing then None
        else Some (WhereUserFollowersSome currentUserId)
    end
    ctx limit (in_cursor input).

(** [create].  The new row's [id] and [createdAt] are schema defaults filled
    in by the store; here they are handed in as [newId] and [now]. *)
Definition create (content : string) (newId : string) (now : Date) (ctx : Context)
  : Result TRPCError (Database * TweetRow) :=
  protectedProcedure ctx (fun userId =>
    await r <- storage (tweet_create (prisma ctx) (mkTweetRow newId content now userId));
    Ok r).

Record ToggleLikeOutput := mkToggleLikeOutput { addedLike : bool }.

Definition toggleLike (id : string) (ctx : Context)
  : Result TRPCError (Database * ToggleLikeOutput) :=
  protectedProcedure ctx (fun userId =>
    let data := mkLikeRow userId id in
    let existingLike := like_findUnique (prisma ctx) (l_userId data) (l_tweetId data) in
    match existingLike with
    | None =>
        await db <- storage (like_create (prisma ctx) data);
        Ok (db, {| addedLike := true |})
    | Some _ =>
        await db <- storage (like_delete (prisma ctx) (l_userId data) (l_tweetId data));
        Ok (db, {| addedLike := false |})
    end).

(** Requests against the router, run one after another on the store.  A
    query leaves the store as it is; so does a failed mutation. *)
Inductive Request :=
| CallInfiniteProfileFeed (s : option Session) (input : InfiniteProfileFeedInput)
| CallInfiniteFeed (s : option Session) (input : InfiniteFeedInput)
| CallCreate (s : option Session) (content newId : string) (now : Date)
| CallToggleLike (s : option Session) (id : string).

Definition serve (db : Database) (r : Request) : Database :=
  match r with
  | CallInfiniteProfileFeed s input =>
      let _ := infiniteProfileFeed input (mkContext s db) in db
  | CallInfiniteFeed s input =>
      let _ := infiniteFeed input (mkContext s db) in db
  | CallCreate s content newId now =>
      match create content newId now (mkContext s db) with
      | Ok (db', _) => db'
      | Err _ => db
      end
  | CallToggleLike s id =>
      match toggleLike id (mkContext s db) with
      | Ok (db', _) => db'
      | Err _ => db
      end
  end.

Definition serveAll (db : Database) (rs : list Request) : Database :=
  fold_left serve rs db.

(** [n] consecutive [toggleLike] calls with the same arguments: the final
    store and the [addedLike] results in call order. *)
Fixpoint toggleLikes (n : nat) (id : string) (s : option Session) (db : Database)
  : Result TRPCError (Database * list bool) :=
  match n with
  | O => Ok (db, [])
  | S n =>
      await r <- toggleLike id (mkContext s db);
      await rs <- toggleLikes n id s r.1;
      Ok (rs.1, addedLike r.2 :: rs.2)
  end.

End TweetRouter.

(** ** The client: src/components/InfiniteTweetList.tsx *)

Module TweetList.

(** What a render returns.  [<InfiniteScroll dataLength next hasMore loader>]
    wraps one [TweetCard] per tweet; the [next] callback is not data. *)
Inductive Element :=
| LoadingSpinner
| ErrorHeading
| NoTweetsHeading
| TweetListElement (dataLength : nat) (hasMore : bool) (loader : Element) (cards : list Tweet).

(** [interface InfiniteTweetListProps], without the [fetchNewTweets] callback. *)
Record InfiniteTweetListProps := mkProps {
  isLoading : bool;
  isError : option bool;
  hasMore : option bool;
  tweets : option (list Tweet)
}.

(** An expression statement: the expression is evaluated and its value
    dropped; control goes on to the next statement. *)
Definition exprStatement {A B} (_ : A) (next : B) : B := next.

(** [InfiniteTweetList]; [None] is the [null] a component returns to render
    nothing.  The two leading [if]s hold JSX expression statements, not
    [return]s. *)
Definition InfiniteTweetList (props : InfiniteTweetListProps) : option Element :=
  let hasMore := default false (hasMore props) in
  exprStatement (if isLoading props then Some LoadingSpinner else None) (
  exprStatement (if default false (isError props) then Some ErrorHeading else None) (
  match tweets props with
  | None => None
  | Some tweets =>
      if (length tweets =? 0)%nat then Some NoTweetsHeading
      else Some (TweetListElement (length tweets) hasMore LoadingSpinner tweets)
  end)).

(** react-query's [InfiniteData]: [{ pages, pageParams }]. *)
Record InfiniteData := mkInfiniteData {
  pages : list FeedPage;
  pageParams : list (option Cursor)
}.

(** Cache slots are keyed structurally by procedure and input object:
    [infiniteFeed] with [{ onlyFollowing? }], [infiniteProfileFeed] with
    [{ userId }]. *)
Inductive QueryKey :=
| InfiniteFeedKey (onlyFollowing : option bool)
| InfiniteProfileFeedKey (userId : string).

Global Instance QueryKey_eq_dec : EqDecision QueryKey.
Proof. solve_decision. Defined.

Global Instance QueryKey_countable : Countable QueryKey.
Proof.
  refine (inj_countable'
    (fun k => match k with
              | InfiniteFeedKey o => inl o
              | InfiniteProfileFeedKey u => inr u
              end)
    (fun s => match s with
              | inl o => InfiniteFeedKey o
              | inr u => InfiniteProfileFeedKey u
              end) _).
  intros []; reflexivity.
Defined.

Abbreviation QueryCache := (gmap QueryKey InfiniteData).

(** [setInfiniteData(input, updater)]: the updater receives the slot's data
    ([undefined] when the slot was never populated); a result of
    [undefined] leaves the cache as it is. *)
Definition setInfiniteData (key : QueryKey)
                           (updater : option InfiniteData -> option InfiniteData)
                           (cache : QueryCache) : QueryCache :=
  match updater (cache !! key) with
  | Some newData => <[key := newData]> cache
  | None => cache
  end.

(** The updater built in [onSuccess], closed over the card's [id] and the
    mutation's [addedLike]. *)
Definition updateTweet (id : string) (addedLike : bool) (countModifier : Z) (tweet : Tweet) : Tweet :=
  if String.eqb (tweet_id tweet) id then
    {| tweet_id := tweet_id tweet;
       tweet_content := tweet_content tweet;
       tweet_createdAt := tweet_createdAt tweet;
       tweet_likeCount := tweet_likeCount tweet + countModifier;
       tweet_likedByMe := addedLike;
       tweet_user := tweet_user tweet |}
  else tweet.

Definition updateData (id : string) (addedLike : bool) (oldData : option InfiniteData)
  : option InfiniteData :=
  match oldData with
  | None => None
  | Some oldData =>
      let countModifier := if addedLike then 1 else -1 in
      Some {| pages :=
                map (fun page =>
                       {| page_tweets := map (updateTweet id addedLike countModifier) (page_tweets page);
                          page_nextCursor := page_nextCursor page |})
                    (pages oldData);
              pageParams := pageParams oldData |}
  end.

(** [onSuccess: ({ addedLike }) => ...] of the card showing [card]: the
    three [setInfiniteData] calls, in source order. *)
Definition onSuccess (card : Tweet) (addedLike : bool) (cache : QueryCache) : QueryCache :=
  let updateData := updateData (tweet_id card) addedLike in
  let cache := setInfiniteData (InfiniteFeedKey None) updateData cache in
  let cache := setInfiniteData (InfiniteFeedKey (Some true)) updateData cache in
  setInfiniteData (InfiniteProfileFeedKey (user_id (tweet_user card))) updateData cache.

End TweetList.

(** ** Vocabulary of the properties *)

Import Prisma TweetRouter TweetList.

(** The number of Like rows stored for a [(userId, tweetId)] pair, and the
    invariant that no pair has more than one. *)
Definition likeRowsFor (db : Database) (userId tweetId : string) : list LikeRow :=
  List.filter (like_key_eqb userId tweetId) (likeTable db).

Definition at_most_one_like (db : Database) : Prop :=
  ∀ userId tweetId, (length (likeRowsFor db userId tweetId) <= 1)%nat.

(** Two stores hold the same state: the same users and tweets, and the same
    Like rows (a table is a bag of rows; its row order is not state). *)
Definition same_state (db1 db2 : Database) : Prop :=
  userTable db1 = userTable db2 ∧ tweetTable db1 = tweetTable db2 ∧
  likeTable db1 ≡ₚ likeTable db2.

(** Where a tweet stands relative to a cursor in the feed's order
    (descending [createdAt], then descending [id]): at or after it, and
    strictly after it when its key also differs from the cursor's. *)
Definition tweetKey (t : Tweet) : SortKey := (tweet_createdAt t, tweet_id t).

Definition at_or_after (c : Cursor) (t : Tweet) : Prop :=
  key_leb (cursorKey c) (tweetKey t) = true.

Definition strictly_after (c : Cursor) (t : Tweet) : Prop :=
  at_or_after c t ∧ tweetKey t ≠ cursorKey c.

(** A small store: three tweets by one author, no likes. *)
Definition three_tweets : Database :=
  mkDatabase [mkUserRow "u" (Some "Una") None []]
             [mkTweetRow "a" "first" 1 "u"; mkTweetRow "b" "second" 2 "u";
              mkTweetRow "c" "third" 3 "u"]
             [].

(** A cached tweet and a cache in which only the unfiltered feed has been
    opened: one page with that tweet (three likes, not liked by the viewer)
    and another one. *)
Definition cached_tweet : Tweet :=
  mkTweet "t1" "hello" 5 3 false (mkTweetUser "u" (Some "Una") None).

Definition global_feed_only : QueryCache :=
  {[ InfiniteFeedKey None :=
       mkInfiniteData
         [mkFeedPage [cached_tweet; mkTweet "t0" "older" 4 7 true (mkTweetUser "w" None None)] None]
         [None] ]}.

(** The frame of the like update on one cached tweet and on one cached
    page: everything but [likeCount] and [likedByMe] is as before, a tweet
    with another id is as before altogether, and a page keeps its cursor and
    its tweets' number and order. *)
Definition same_but_like (id : string) (t' t : Tweet) : Prop :=
  tweet_id t' = tweet_id t ∧ tweet_content t' = tweet_content t ∧
  tweet_createdAt t' = tweet_createdAt t ∧ tweet_user t' = tweet_user t ∧
  (tweet_id t ≠ id → t' = t).

Definition same_page_but_like (id : string) (p' p : FeedPage) : Prop :=
  page_nextCursor p' = page_nextCursor p ∧
  length (page_tweets p') = length (page_tweets p) ∧
  Forall2 (same_but_like id) (page_tweets p') (page_tweets p).

(** [b, negb b, b, ...], [n] values. *)
Fixpoint alternating (b : bool) (n : nat) : list bool :=
  match n with
  | O => []
  | S n => b :: alternating (negb b) n
  end.

(** The rows behind a page.  [orderedRows] is the whole feed of a where
    clause in the feed's order; [selectedRows] is the part of it that one
    [findMany] call reads, before [select]; [pageRows] and [pageNext] are the
    rows kept for the page and the cursor taken from the popped row;
    [project] is a stored row as a viewer sees it. *)
Definition orderedRows (db : Database) (w : option TweetWhereInput) : list TweetRow :=
  merge_sort orderBy (List.filter (matches db w) (tweetTable db)).

Definition selectedRows (db : Database) (args : TweetFindManyArgs) : list TweetRow :=
  let backwards := args_take args <? 0 in
  let positioned :=
    match args_cursor args with
    | None => orderedRows db (args_where args)
    | Some c =>
        match cursor_row db c with
        | None => []
        | Some _ =>
            List.filter
              (fun t => if backwards then key_leb (sortKey t) (cursorKey c)
                        else key_leb (cursorKey c) (sortKey t))
              (orderedRows db (args_where args))
        end
    end in
  if backwards then lastn (Z.to_nat (- args_take args)) positioned
  else take (Z.to_nat (args_take args)) positioned.

Definition rowCursor (r : TweetRow) : Cursor := mkCursor (t_id r) (t_createdAt r).

Definition pageRows (limit : Z) (rows : list TweetRow) : list TweetRow :=
  if Z.of_nat (length rows) >? limit then removelast rows else rows.

Definition pageNext (limit : Z) (rows : list TweetRow) : option Cursor :=
  if Z.of_nat (length rows) >? limit then rowCursor <$> last rows else None.

Definition project (db : Database) (viewer : option string) (r : TweetRow) : Tweet :=
  toTweet (select db viewer r).

(** A tweet with the viewer's own mark cleared. *)
Definition withoutViewer (t : Tweet) : Tweet :=
  mkTweet (tweet_id t) (tweet_content t) (tweet_createdAt t) (tweet_likeCount t) false
          (tweet_user t).

(** The tweets in feed order: each one at or before every later one. *)
Definition feedOrder (t1 t2 : Tweet) : Prop := key_leb (tweetKey t1) (tweetKey t2) = true.

(** Loading a feed to its end: request a page, and while the page carries a
    [nextCursor] request the next one with it; [fuel] bounds the number of
    requests.  The result is the concatenation of the pages. *)
Fixpoint walk (fuel : nat) (whereClause : option TweetWhereInput) (ctx : Context)
              (limit : Z) (cursor : option Cursor) : list Tweet :=
  match fuel with
  | O => []
  | S fuel =>
      let page := getInfiniteTweets whereClause ctx limit cursor in
      page_tweets page ++
      match page_nextCursor page with
      | None => []
      | Some next => walk fuel whereClause ctx limit (Some next)
      end
  end.

(** * Properties *)

(** ** What [findMany] returns *)

Section FindMany.
Context (db : Database) (args : TweetFindManyArgs).

(** Every returned row is the [select] of a stored tweet that the where
    clause admits. *)
Lemma tweet_findMany_elem (raw : RawTweet) :
  raw ∈ tweet_findMany db args →
  ∃ t, t ∈ tweetTable db ∧ matches db (args_where args) t = true ∧
       raw = select db (args_select_Likes args) t.
Proof.
  unfold tweet_findMany. intros Hraw.
  apply list_elem_of_fmap in Hraw as (t & -> & Ht).
  exists t. split_and!; [| |done].
  all: cut (t ∈ merge_sort orderBy
              (List.filter (matches db (args_where args)) (tweetTable db)));
    [rewrite merge_sort_Permutation; intros [??]%list_elem_of_In%filter_In;
     first [by apply list_elem_of_In | done] |].
  all: cut (t ∈ match args_cursor args with
                | None => merge_sort orderBy
                            (List.filter (matches db (args_where args)) (tweetTable db))
                | Some c =>
                    match cursor_row db c with
                    | None => []
                    | Some _ =>
                        List.filter
                          (fun t => if args_take args <? 0
                                    then key_leb (sortKey t) (cursorKey c)
                                    else key_leb (cursorKey c) (sortKey t))
                          (merge_sort orderBy
                             (List.filter (matches db (args_where args)) (tweetTable db)))
                    end
                end);
    [destruct (args_cursor args) as [c|]; [|done];
     destruct (cursor_row db c); [|by intros ?%elem_of_nil];
     by intros [??]%list_elem_of_In%filter_In; apply list_elem_of_In |].
  all: destruct (args_take args <? 0); unfold lastn in Ht.
  all: first [by apply elem_of_take in Ht as (i & Ht & _); eapply list_elem_of_lookup_2
             |by apply list_elem_of_lookup in Ht as [i Ht]; rewrite lookup_drop in Ht;
              eapply list_elem_of_lookup_2].
Qed.

(** A non-negative [take] bounds the number of returned rows. *)
Lemma tweet_findMany_length :
  0 <= args_take args →
  (length (tweet_findMany db args) <= Z.to_nat (args_take args))%nat.
Proof.
  intros Htake. unfold tweet_findMany.
  assert ((args_take args <? 0) = false) as -> by lia.
  rewrite length_map. apply firstn_le_length.
Qed.

End FindMany.

(** ** The optional [pop] *)

Lemma pop_elem {A} (l : list A) (x : A) : x ∈ (pop l).1 → x ∈ l.
Proof.
  unfold pop; simpl. rewrite removelast_firstn_len.
  intros (i & Hx & _)%elem_of_take. by eapply list_elem_of_lookup_2.
Qed.

Lemma splitNext_elem limit data raw : raw ∈ (splitNext limit data).1 → raw ∈ data.
Proof.
  unfold splitNext. destruct (Z.of_nat (length data) >? limit); [|done].
  destruct (pop data) as [data' nextItem] eqn:Hpop.
  intros Hraw. apply pop_elem. rewrite Hpop.
  by destruct nextItem.
Qed.

Lemma splitNext_more limit data :
  0 <= limit → Z.of_nat (length data) = limit + 1 →
  splitNext limit data =
    (take (Z.to_nat limit) data,
     (fun r => mkCursor (raw_id r) (raw_createdAt r)) <$> data !! Z.to_nat limit).
Proof.
  intros Hlimit Hlen. unfold splitNext, pop.
  assert ((Z.of_nat (length data) >? limit) = true) as -> by lia.
  rewrite removelast_firstn_len, last_lookup.
  replace (Nat.pred (length data)) with (Z.to_nat limit) by lia.
  destruct (data !! Z.to_nat limit) eqn:Hl; [done|].
  apply lookup_ge_None in Hl. lia.
Qed.

Lemma splitNext_all limit data :
  Z.of_nat (length data) <= limit → splitNext limit data = (data, None).
Proof.
  intros Hlen. unfold splitNext.
  by assert ((Z.of_nat (length data) >? limit) = false) as -> by lia.
Qed.

Lemma getInfiniteTweets_unfold whereClause ctx limit cursor :
  getInfiniteTweets whereClause ctx limit cursor =
  let r := splitNext limit
             (tweet_findMany (prisma ctx)
                (findManyArgs whereClause (session_user_id <$> session ctx) limit cursor)) in
  {| page_tweets := map toTweet r.1; page_nextCursor := r.2 |}.
Proof. unfold getInfiniteTweets. by destruct (splitNext _ _). Qed.

(** ** C1: fetch one extra row to detect a further page *)

(** C1.  For a call of [getInfiniteTweets] with limit [n >= 0]: the query asks
    the store for [n + 1] rows (and gets at most that many); when the store
    returns more than [n] rows the page holds exactly the first [n] of them
    and [nextCursor] is the [(id, createdAt)] of the removed row, the one at
    index [n]; when the store returns at most [n] rows the page holds them all
    and [nextCursor] is absent. *)
Theorem getInfiniteTweets_fetch_one_extra whereClause ctx limit cursor :
  0 <= limit →
  let args := findManyArgs whereClause (session_user_id <$> session ctx) limit cursor in
  let data := tweet_findMany (prisma ctx) args in
  let page := getInfiniteTweets whereClause ctx limit cursor in
  args_take args = limit + 1 ∧
  (length data <= Z.to_nat (limit + 1))%nat ∧
  (Z.of_nat (length data) > limit →
     page_tweets page = map toTweet (take (Z.to_nat limit) data) ∧
     length (page_tweets page) = Z.to_nat limit ∧
     ∃ removed, data !! Z.to_nat limit = Some removed ∧
       page_nextCursor page = Some (mkCursor (raw_id removed) (raw_createdAt removed))) ∧
  (Z.of_nat (length data) <= limit →
     page_tweets page = map toTweet data ∧ page_nextCursor page = None).
Proof.
  intros Hlimit args data page.
  assert (Hlen : (length data <= Z.to_nat (limit + 1))%nat).
  { apply (tweet_findMany_length (prisma ctx) args). simpl. lia. }
  split_and!; [done|done| |].
  - intros Hmore. subst page. rewrite getInfiniteTweets_unfold.
    fold args. fold data. rewrite splitNext_more by lia. simpl.
    split_and!; [done| |].
    + rewrite length_map, length_take. lia.
    + destruct (data !! Z.to_nat limit) as [removed|] eqn:Hl.
      * by exists removed.
      * apply lookup_ge_None in Hl. lia.
  - intros Hall. subst page. rewrite getInfiniteTweets_unfold.
    fold args. fold data. by rewrite splitNext_all.
Qed.

Lemma getInfiniteTweets_fetch_one_extra_witness :
  page_tweets (getInfiniteTweets None (mkContext None three_tweets) 2 None) =
    map toTweet (take 2 (tweet_findMany three_tweets (findManyArgs None None 2 None))) ∧
  page_nextCursor (getInfiniteTweets None (mkContext None three_tweets) 2 None) =
    Some (mkCursor "a" 1).
Proof.
  destruct (getInfiniteTweets_fetch_one_extra None (mkContext None three_tweets) 2 None
              ltac:(lia)) as (_ & _ & Hmore & _).
  destruct (Hmore ltac:(vm_compute; reflexivity)) as (Htweets & _ & removed & Hl & Hnext).
  split; [exact Htweets|].
  rewrite Hnext. vm_compute in Hl. by injection Hl as <-.
Defined.

(** ** C7: [likedByMe] *)

Lemma likedByMe_select db sel t :
  tweet_likedByMe (toTweet (select db sel t)) = true ↔
  ∃ userId, sel = Some userId ∧ mkLikeRow userId (t_id t) ∈ likeTable db.
Proof.
  unfold toTweet, select; simpl. destruct sel as [userId|]; simpl.
  - split.
    + intros Hpos. exists userId. split; [done|].
      destruct (List.filter _ _) as [|l ls] eqn:Hf; [done|].
      assert (Hin : In l (List.filter (λ l, String.eqb (l_userId l) userId) (likes_of db (t_id t))))
        by (rewrite Hf; by left).
      apply filter_In in Hin as [Hin Hu]. apply filter_In in Hin as [Hin Ht].
      apply String.eqb_eq in Hu, Ht. destruct l; simpl in *; subst.
      by apply list_elem_of_In.
    + intros (u & [= <-] & Hin).
      assert (Hf : In (mkLikeRow userId (t_id t))
                (List.filter (λ l, String.eqb (l_userId l) userId) (likes_of db (t_id t)))).
      { apply filter_In; split; [apply filter_In; split|]; simpl.
        - by apply list_elem_of_In.
        - apply String.eqb_refl.
        - apply String.eqb_refl. }
      destruct (List.filter _ _); [done|]. apply Z.ltb_lt. simpl length. lia.
  - split; [done|]. by intros (u & [=] & _).
Qed.

(** C7.  For every tweet of a page returned by [getInfiniteTweets]:
    [likedByMe] is true iff the session supplies a viewer and the Like table
    has that viewer's Like on that tweet; with no session it is false. *)
Theorem getInfiniteTweets_likedByMe whereClause ctx limit cursor (t : Tweet) :
  t ∈ page_tweets (getInfiniteTweets whereClause ctx limit cursor) →
  (tweet_likedByMe t = true ↔
     ∃ viewer, session ctx = Some viewer ∧
               mkLikeRow (session_user_id viewer) (tweet_id t) ∈ likeTable (prisma ctx)) ∧
  (session ctx = None → tweet_likedByMe t = false).
Proof.
  rewrite getInfiniteTweets_unfold. simpl.
  intros (raw & -> & Hraw)%list_elem_of_fmap.
  apply splitNext_elem, tweet_findMany_elem in Hraw as (row & _ & _ & ->).
  simpl args_select_Likes.
  assert (Hiff : tweet_likedByMe (toTweet (select (prisma ctx) (session_user_id <$> session ctx) row)) = true ↔
     ∃ viewer, session ctx = Some viewer ∧
       mkLikeRow (session_user_id viewer) (t_id row) ∈ likeTable (prisma ctx)).
  { rewrite likedByMe_select. split.
    - intros (u & Hu & Hin). destruct (session ctx) as [viewer|]; [|done].
      injection Hu as <-. by exists viewer.
    - intros (viewer & -> & Hin). by exists (session_user_id viewer). }
  split; [exact Hiff|].
  intros Hanon. apply not_true_is_false. rewrite Hiff.
  intros (viewer & Hv & _). congruence.
Qed.

Lemma getInfiniteTweets_likedByMe_witness :
  tweet_likedByMe (mkTweet "b" "second" 2 1 true (mkTweetUser "u" None None)) = true ↔
    ∃ viewer, Some (mkSession "v") = Some viewer ∧
              mkLikeRow (session_user_id viewer) "b" ∈ [mkLikeRow "v" "b"].
Proof.
  apply (getInfiniteTweets_likedByMe None
           (mkContext (Some (mkSession "v"))
              (mkDatabase [] [mkTweetRow "a" "first" 1 "u"; mkTweetRow "b" "second" 2 "u"]
                          [mkLikeRow "v" "b"]))
           10 None (mkTweet "b" "second" 2 1 true (mkTweetUser "u" None None))).
  vm_compute. left.
Defined.

(** ** C8: an anonymous [onlyFollowing] request *)

(** C8.  For an [infiniteFeed] request with [onlyFollowing = true] and no
    session, the page is the page of the unfiltered feed (the same request
    with [onlyFollowing] false or left out) for the same cursor and limit:
    the query runs with no where-clause. *)
Theorem infiniteFeed_anonymous_onlyFollowing db limit cursor :
  let ctx := mkContext None db in
  infiniteFeed (mkFeedInput (Some true) limit cursor) ctx =
    infiniteFeed (mkFeedInput None limit cursor) ctx ∧
  infiniteFeed (mkFeedInput (Some true) limit cursor) ctx =
    infiniteFeed (mkFeedInput (Some false) limit cursor) ctx ∧
  infiniteFeed (mkFeedInput (Some true) limit cursor) ctx =
    getInfiniteTweets None ctx (default 10 limit) cursor.
Proof. done. Qed.

(** ** The Like table under [toggleLike] *)

Lemma like_key_eqb_eq userId tweetId l :
  like_key_eqb userId tweetId l = true ↔ l = mkLikeRow userId tweetId.
Proof.
  unfold like_key_eqb. rewrite andb_true_iff, !String.eqb_eq.
  destruct l as [u t]; simpl. split; [by intros [-> ->]|by intros [= -> ->]].
Qed.

Lemma like_existsb db userId tweetId :
  existsb (like_key_eqb userId tweetId) (likeTable db) = true ↔
  mkLikeRow userId tweetId ∈ likeTable db.
Proof.
  rewrite existsb_exists. split.
  - intros (l & Hin & ->%like_key_eqb_eq). by apply list_elem_of_In.
  - intros Hin. exists (mkLikeRow userId tweetId).
    split; [by apply list_elem_of_In|by apply like_key_eqb_eq].
Qed.

Lemma like_findUnique_None db userId tweetId :
  like_findUnique db userId tweetId = None ↔ mkLikeRow userId tweetId ∉ likeTable db.
Proof.
  unfold like_findUnique. split.
  - intros Hnone Hin%list_elem_of_In.
    pose proof (find_none _ _ Hnone _ Hin) as Hk.
    by rewrite (proj2 (like_key_eqb_eq _ _ _) eq_refl) in Hk.
  - intros Hnot. destruct (List.find _ _) as [l|] eqn:Hf; [|done].
    apply find_some in Hf as [Hin ->%like_key_eqb_eq].
    by apply list_elem_of_In in Hin.
Qed.

Lemma toggleLike_absent db viewer id :
  mkLikeRow (session_user_id viewer) id ∉ likeTable db →
  toggleLike id (mkContext (Some viewer) db) =
    Ok (mkDatabase (userTable db) (tweetTable db)
                   (likeTable db ++ [mkLikeRow (session_user_id viewer) id]),
        {| addedLike := true |}).
Proof.
  intros Hnot. unfold toggleLike, protectedProcedure; simpl.
  rewrite (proj2 (like_findUnique_None _ _ _) Hnot).
  unfold like_create; simpl.
  destruct (existsb _ _) eqn:He; [|done].
  by apply like_existsb in He.
Qed.

Lemma toggleLike_present db viewer id :
  mkLikeRow (session_user_id viewer) id ∈ likeTable db →
  toggleLike id (mkContext (Some viewer) db) =
    Ok (mkDatabase (userTable db) (tweetTable db)
          (List.filter (λ l, negb (like_key_eqb (session_user_id viewer) id l)) (likeTable db)),
        {| addedLike := false |}).
Proof.
  intros Hin. unfold toggleLike, protectedProcedure; simpl.
  destruct (like_findUnique _ _ _) eqn:Hf.
  - unfold like_delete; simpl.
    by rewrite (proj2 (like_existsb _ _ _) Hin).
  - by apply like_findUnique_None in Hf.
Qed.

Lemma elem_of_filter_other userId tweetId (ls : list LikeRow) l :
  l ∈ List.filter (λ l, negb (like_key_eqb userId tweetId l)) ls ↔
  l ∈ ls ∧ l ≠ mkLikeRow userId tweetId.
Proof.
  rewrite list_elem_of_In, filter_In, <- list_elem_of_In, negb_true_iff.
  rewrite <- like_key_eqb_eq, not_true_iff_false. done.
Qed.

(** ** C4: the like toggle *)

(** C4.  For every viewer and tweet id: when the store has no Like for the
    pair, [toggleLike] appends exactly that Like and returns
    [{ addedLike: true }]; when it has one, [toggleLike] removes it (and
    nothing else) and returns [{ addedLike: false }]; in both prior states the
    call succeeds, so an authenticated call has no error result, and users
    and tweets are as before. *)
Theorem toggleLike_by_prior_state db viewer id :
  let ctx := mkContext (Some viewer) db in
  let like := mkLikeRow (session_user_id viewer) id in
  (like ∉ likeTable db →
     toggleLike id ctx =
       Ok (mkDatabase (userTable db) (tweetTable db) (likeTable db ++ [like]),
           {| addedLike := true |})) ∧
  (like ∈ likeTable db →
     ∃ db', toggleLike id ctx = Ok (db', {| addedLike := false |}) ∧
            userTable db' = userTable db ∧ tweetTable db' = tweetTable db ∧
            ∀ l, l ∈ likeTable db' ↔ l ∈ likeTable db ∧ l ≠ like) ∧
  (∃ db' out, toggleLike id ctx = Ok (db', out) ∧
              (addedLike out = true ↔ like ∉ likeTable db)).
Proof.
  intros ctx like. split_and!.
  - apply toggleLike_absent.
  - intros Hin. eexists. split; [by apply toggleLike_present|].
    split_and!; [done|done|]. intros l. apply elem_of_filter_other.
  - destruct (decide (like ∈ likeTable db)) as [Hin|Hnot].
    + eexists _, _. split; [by apply toggleLike_present|]. simpl. split; [done|tauto].
    + eexists _, _. split; [by apply toggleLike_absent|]. done.
Qed.

Lemma toggleLike_by_prior_state_witness :
  toggleLike "t1" (mkContext (Some (mkSession "v")) (mkDatabase [] [] [mkLikeRow "w" "t1"])) =
    Ok (mkDatabase [] [] [mkLikeRow "w" "t1"; mkLikeRow "v" "t1"], {| addedLike := true |}).
Proof.
  apply (toggleLike_by_prior_state (mkDatabase [] [] [mkLikeRow "w" "t1"]) (mkSession "v") "t1").
  simpl. intros Hin. apply list_elem_of_In in Hin. simpl in Hin.
  destruct Hin as [[=]|[]].
Defined.

(** ** C5: the toggle law *)

Lemma filter_split_perm {A} (f : A → bool) (l : list A) :
  l ≡ₚ List.filter f l ++ List.filter (λ x, negb (f x)) l.
Proof.
  induction l as [|x l IH]; simpl; [done|].
  destruct (f x); simpl.
  - by constructor.
  - rewrite <- Permutation_middle. by constructor.
Qed.

Lemma filter_key_absent (ls : list LikeRow) userId tweetId :
  mkLikeRow userId tweetId ∉ ls → List.filter (like_key_eqb userId tweetId) ls = [].
Proof.
  intros Hnot.
  destruct (List.filter _ _) as [|l ls'] eqn:Hf; [done|].
  assert (Hin : In l (List.filter (like_key_eqb userId tweetId) ls))
    by (rewrite Hf; by left).
  apply filter_In in Hin as [Hin ->%like_key_eqb_eq].
  by apply list_elem_of_In in Hin.
Qed.

Lemma likeRowsFor_absent db userId tweetId :
  mkLikeRow userId tweetId ∉ likeTable db → likeRowsFor db userId tweetId = [].
Proof. apply filter_key_absent. Qed.

Lemma NoDup_at_most_one_like db : NoDup (likeTable db) → at_most_one_like db.
Proof.
  intros Hnd userId tweetId. unfold likeRowsFor.
  induction Hnd as [|l ls Hl Hnd IH]; simpl; [lia|].
  destruct (like_key_eqb userId tweetId l) eqn:Hk; [|done].
  apply like_key_eqb_eq in Hk as ->.
  rewrite filter_key_absent by done. simpl. lia.
Qed.

Lemma likeRowsFor_present db userId tweetId :
  at_most_one_like db → mkLikeRow userId tweetId ∈ likeTable db →
  likeRowsFor db userId tweetId = [mkLikeRow userId tweetId].
Proof.
  intros Hinv Hin. specialize (Hinv userId tweetId).
  assert (Hf : In (mkLikeRow userId tweetId) (likeRowsFor db userId tweetId)).
  { apply filter_In. split; [by apply list_elem_of_In|by apply like_key_eqb_eq]. }
  destruct (likeRowsFor db userId tweetId) as [|l [|l' ls]]; simpl in *; [done| |lia].
  by destruct Hf as [->|[]].
Qed.

Lemma toggleLike_membership_flips db viewer id db' out :
  toggleLike id (mkContext (Some viewer) db) = Ok (db', out) →
  addedLike out = bool_decide (mkLikeRow (session_user_id viewer) id ∉ likeTable db) ∧
  (mkLikeRow (session_user_id viewer) id ∈ likeTable db' ↔
   mkLikeRow (session_user_id viewer) id ∉ likeTable db).
Proof.
  destruct (decide (mkLikeRow (session_user_id viewer) id ∈ likeTable db)) as [Hin|Hnot].
  - rewrite toggleLike_present by done. intros [= <- <-]; simpl.
    rewrite bool_decide_false by tauto.
    split; [done|]. rewrite elem_of_filter_other. tauto.
  - rewrite toggleLike_absent by done. intros [= <- <-]; simpl.
    rewrite bool_decide_true by done.
    split; [done|]. rewrite elem_of_app, list_elem_of_singleton. tauto.
Qed.

Lemma toggleLike_succeeds db viewer id :
  ∃ db' out, toggleLike id (mkContext (Some viewer) db) = Ok (db', out).
Proof.
  destruct (decide (mkLikeRow (session_user_id viewer) id ∈ likeTable db)).
  - eexists _, _. by apply toggleLike_present.
  - eexists _, _. by apply toggleLike_absent.
Qed.

Lemma toggleLikes_alternating n : ∀ db viewer id,
  ∃ dbn, toggleLikes n id (Some viewer) db =
         Ok (dbn, alternating (bool_decide (mkLikeRow (session_user_id viewer) id ∉ likeTable db)) n).
Proof.
  induction n as [|n IH]; intros db viewer id; simpl.
  - by eexists.
  - destruct (toggleLike_succeeds db viewer id) as (db1 & out & Hstep).
    rewrite Hstep; simpl.
    destruct (toggleLike_membership_flips _ _ _ _ _ Hstep) as [Hout Hflip].
    destruct (IH db1 viewer id) as (dbn & ->); simpl.
    exists dbn. rewrite Hout. do 3 f_equal.
    destruct (decide (mkLikeRow (session_user_id viewer) id ∈ likeTable db)) as [Hin|Hnot].
    + rewrite (bool_decide_false (_ ∉ likeTable db)) by tauto.
      rewrite bool_decide_true by tauto. done.
    + rewrite (bool_decide_true (_ ∉ likeTable db)) by done.
      rewrite bool_decide_false by tauto. done.
Qed.

(** C5.  From a store with at most one Like per pair, two consecutive
    [toggleLike] calls by one viewer on one tweet both succeed, the second
    reports the opposite of the first, and the store is back in its original
    state; and for every [n] the results of [n] consecutive calls alternate,
    starting with [true] exactly when the pair was not liked. *)
Theorem toggleLike_toggle_law db viewer id :
  at_most_one_like db →
  (∃ db1 db2 added,
     toggleLike id (mkContext (Some viewer) db) = Ok (db1, {| addedLike := added |}) ∧
     toggleLike id (mkContext (Some viewer) db1) = Ok (db2, {| addedLike := negb added |}) ∧
     same_state db2 db) ∧
  (∀ n, ∃ dbn,
     toggleLikes n id (Some viewer) db =
       Ok (dbn, alternating (bool_decide (mkLikeRow (session_user_id viewer) id ∉ likeTable db)) n)).
Proof.
  intros Hinv. split; [|intros n; apply toggleLikes_alternating].
  set (like := mkLikeRow (session_user_id viewer) id).
  destruct (decide (like ∈ likeTable db)) as [Hin|Hnot].
  - eexists _, _, false. split; [by apply toggleLike_present|].
    split.
    + apply toggleLike_absent. simpl. rewrite elem_of_filter_other. tauto.
    + split_and!; [done|done|]. simpl.
      rewrite (filter_split_perm (like_key_eqb (session_user_id viewer) id) (likeTable db)) at 2.
      fold (likeRowsFor db (session_user_id viewer) id).
      rewrite likeRowsFor_present by done.
      by rewrite Permutation_app_comm.
  - eexists _, _, true. split; [by apply toggleLike_absent|].
    split.
    + apply toggleLike_present. simpl. rewrite elem_of_app, list_elem_of_singleton. by right.
    + split_and!; [done|done|]. simpl.
      rewrite List.filter_app; simpl.
      rewrite (proj2 (like_key_eqb_eq _ _ _) eq_refl); simpl.
      rewrite app_nil_r.
      rewrite (filter_split_perm (like_key_eqb (session_user_id viewer) id) (likeTable db)) at 2.
      fold (likeRowsFor db (session_user_id viewer) id).
      by rewrite likeRowsFor_absent.
Qed.

Lemma toggleLike_toggle_law_witness :
  ∃ db1 db2 added,
    toggleLike "t1" (mkContext (Some (mkSession "v"))
                       (mkDatabase [] [] [mkLikeRow "v" "t1"; mkLikeRow "w" "t1"]))
      = Ok (db1, {| addedLike := added |}) ∧
    toggleLike "t1" (mkContext (Some (mkSession "v")) db1)
      = Ok (db2, {| addedLike := negb added |}) ∧
    same_state db2 (mkDatabase [] [] [mkLikeRow "v" "t1"; mkLikeRow "w" "t1"]).
Proof.
  apply (toggleLike_toggle_law (mkDatabase [] [] [mkLikeRow "v" "t1"; mkLikeRow "w" "t1"])
           (mkSession "v") "t1").
  apply NoDup_at_most_one_like. simpl.
  apply (bool_decide_unpack (NoDup [mkLikeRow "v" "t1"; mkLikeRow "w" "t1"])).
  vm_compute. exact I.
Defined.

(** ** C6: at most one Like per pair *)

Lemma filter_filter_length {A} (f g : A → bool) (l : list A) :
  (length (List.filter f (List.filter g l)) <= length (List.filter f l))%nat.
Proof.
  induction l as [|x l IH]; simpl; [lia|].
  destruct (g x), (f x) eqn:Hf; simpl; rewrite ?Hf; simpl; lia.
Qed.

Lemma toggleLike_preserves db s id db' out :
  at_most_one_like db →
  toggleLike id (mkContext s db) = Ok (db', out) →
  at_most_one_like db'.
Proof.
  intros Hinv. destruct s as [viewer|]; [|done].
  destruct (decide (mkLikeRow (session_user_id viewer) id ∈ likeTable db)) as [Hin|Hnot].
  - rewrite toggleLike_present by done. intros [= <- <-] userId tweetId.
    unfold likeRowsFor; simpl.
    etrans; [apply filter_filter_length|apply Hinv].
  - rewrite toggleLike_absent by done. intros [= <- <-] userId tweetId.
    unfold likeRowsFor; simpl. rewrite List.filter_app, length_app; simpl.
    destruct (like_key_eqb userId tweetId _) eqn:Hk; simpl.
    + apply like_key_eqb_eq in Hk as [= <- <-].
      rewrite filter_key_absent by done. simpl. lia.
    + specialize (Hinv userId tweetId). unfold likeRowsFor in Hinv. lia.
Qed.

Lemma create_likeTable content newId now ctx db' row :
  create content newId now ctx = Ok (db', row) →
  likeTable db' = likeTable (prisma ctx).
Proof.
  unfold create, protectedProcedure, tweet_create.
  destruct (session ctx); [|done].
  destruct (existsb _ _); simpl; [done|].
  by intros [= <- _].
Qed.

Lemma serve_preserves db r : at_most_one_like db → at_most_one_like (serve db r).
Proof.
  intros Hinv. destruct r as [s input|s input|s content newId now|s id]; simpl; [done|done| |].
  - destruct (create _ _ _ _) as [[db' row]|e] eqn:Hc; [|done].
    apply create_likeTable in Hc. simpl in Hc.
    intros userId tweetId. unfold likeRowsFor. rewrite Hc. apply Hinv.
  - destruct (toggleLike _ _) as [[db' out]|e] eqn:Ht; [|done].
    by eapply toggleLike_preserves.
Qed.

(** C6.  Every request to the router ([infiniteProfileFeed], [infiniteFeed],
    [create], [toggleLike]) takes a store with at most one Like per
    [(userId, tweetId)] pair to a store with at most one Like per pair, and so
    does every sequence of requests: no state with two Likes for one pair is
    reachable. *)
Theorem at_most_one_like_preserved db :
  at_most_one_like db →
  (∀ r, at_most_one_like (serve db r)) ∧
  (∀ rs, at_most_one_like (serveAll db rs)).
Proof.
  intros Hinv. split; [intros r; by apply serve_preserves|].
  intros rs. revert db Hinv. unfold serveAll.
  induction rs as [|r rs IH]; intros db Hinv; simpl; [done|].
  apply IH. by apply serve_preserves.
Qed.

Lemma at_most_one_like_preserved_witness :
  at_most_one_like
    (serveAll (mkDatabase [] [mkTweetRow "t1" "hello" 5 "u"] [])
       [CallToggleLike (Some (mkSession "v")) "t1";
        CallInfiniteFeed None (mkFeedInput None None None);
        CallToggleLike (Some (mkSession "w")) "t1";
        CallCreate (Some (mkSession "v")) "again" "t2" 6;
        CallToggleLike (Some (mkSession "v")) "t1"]).
Proof.
  apply (at_most_one_like_preserved (mkDatabase [] [mkTweetRow "t1" "hello" 5 "u"] [])).
  intros userId tweetId. unfold likeRowsFor. simpl. lia.
Defined.

(** ** The order of the feed *)

Lemma key_leb_spec (k1 k2 : SortKey) :
  key_leb k1 k2 = true ↔ k2.1 < k1.1 ∨ (k1.1 = k2.1 ∧ String.le k2.2 k1.2).
Proof.
  unfold key_leb, String.le.
  rewrite orb_true_iff, andb_true_iff, Z.ltb_lt, Z.eqb_eq, Is_true_true. done.
Qed.

Lemma key_leb_refl k : key_leb k k = true.
Proof. apply key_leb_spec. right. split; [done|]. reflexivity. Qed.

Lemma key_leb_antisym k1 k2 : key_leb k1 k2 = true → key_leb k2 k1 = true → k1 = k2.
Proof.
  rewrite !key_leb_spec. destruct k1 as [d1 i1], k2 as [d2 i2]; simpl.
  intros [?|[-> H1]] [?|[? H2]]; try lia.
  f_equal. by apply (anti_symm String.le).
Qed.

Lemma key_leb_trans k1 k2 k3 :
  key_leb k1 k2 = true → key_leb k2 k3 = true → key_leb k1 k3 = true.
Proof.
  rewrite !key_leb_spec.
  intros [?|[? H1]] [?|[? H2]]; [left; lia|left; lia|left; lia|].
  right. split; [lia|]. by trans (k2.2).
Qed.

Lemma key_leb_total k1 k2 : key_leb k1 k2 = true ∨ key_leb k2 k1 = true.
Proof.
  rewrite !key_leb_spec.
  destruct (Z.lt_trichotomy k1.1 k2.1) as [?|[?|?]]; [by right; left| |by left; left].
  destruct (total String.le k1.2 k2.2); [right|left]; right; done.
Qed.

Global Instance orderBy_trans : Transitive orderBy.
Proof.
  intros a b c. unfold orderBy. rewrite !Is_true_true. apply key_leb_trans.
Qed.

Global Instance orderBy_total : Total orderBy.
Proof.
  intros a b. unfold orderBy. rewrite !Is_true_true. apply key_leb_total.
Qed.

Lemma StronglySorted_filter {A} (R : relation A) (f : A → bool) (l : list A) :
  StronglySorted R l → StronglySorted R (List.filter f l).
Proof.
  induction 1 as [|x l Hl IH Hx]; simpl; [constructor|].
  destruct (f x); [|done].
  constructor; [done|].
  apply Forall_forall. intros y [Hy _]%list_elem_of_In%filter_In.
  eapply Forall_forall in Hx; [done|]. by apply list_elem_of_In.
Qed.

(** The head of an ordered list of rows at or after a key that the list
    holds has that key. *)
Lemma head_from_key (rows : list TweetRow) (k : SortKey) (row : TweetRow) :
  StronglySorted orderBy rows → row ∈ rows → sortKey row = k →
  ∃ h rest, List.filter (λ t, key_leb k (sortKey t)) rows = h :: rest ∧ sortKey h = k.
Proof.
  intros Hsorted Hin Hk.
  pose proof (StronglySorted_filter orderBy (λ t, key_leb k (sortKey t)) rows Hsorted) as Hs.
  assert (Hrow : In row (List.filter (λ t, key_leb k (sortKey t)) rows)).
  { apply filter_In. split; [by apply list_elem_of_In|]. rewrite Hk. apply key_leb_refl. }
  destruct (List.filter _ rows) as [|h rest] eqn:Hf; [done|].
  exists h, rest. split; [done|].
  assert (Hh : In h (List.filter (λ t, key_leb k (sortKey t)) rows))
    by (rewrite Hf; by left).
  apply filter_In in Hh as [_ Hh].
  apply key_leb_antisym; [|done].
  destruct Hrow as [->|Hrest]; [by rewrite Hk; apply key_leb_refl|].
  apply StronglySorted_inv in Hs as [_ Hall].
  eapply Forall_forall in Hall; [|by apply list_elem_of_In].
  unfold orderBy in Hall. apply Is_true_true in Hall. by rewrite Hk in Hall.
Qed.

Section FindManyForward.
Context (db : Database) (args : TweetFindManyArgs) (c : Cursor).
Hypothesis (Htake : 0 <= args_take args) (Hcursor : args_cursor args = Some c).

Lemma tweet_findMany_from_cursor (raw : RawTweet) :
  raw ∈ tweet_findMany db args →
  key_leb (cursorKey c) (raw_createdAt raw, raw_id raw) = true.
Proof.
  unfold tweet_findMany. rewrite Hcursor.
  assert ((args_take args <? 0) = false) as -> by lia.
  intros (t & -> & Ht)%list_elem_of_fmap. simpl.
  destruct (cursor_row db c); [|by rewrite take_nil in Ht; apply elem_of_nil in Ht].
  apply elem_of_take in Ht as (i & Ht & _). apply list_elem_of_lookup_2 in Ht.
  by apply list_elem_of_In, filter_In in Ht as [_ Ht].
Qed.

Lemma tweet_findMany_head (row : TweetRow) :
  1 <= args_take args →
  row ∈ tweetTable db → sortKey row = cursorKey c → matches db (args_where args) row = true →
  ∃ h rest, tweet_findMany db args = select db (args_select_Likes args) h :: rest ∧
            sortKey h = cursorKey c.
Proof.
  intros Hone Hin Hkey Hmatch. unfold tweet_findMany. rewrite Hcursor.
  assert ((args_take args <? 0) = false) as -> by lia.
  destruct (cursor_row db c) eqn:Hfind.
  - destruct (head_from_key
                (merge_sort orderBy (List.filter (matches db (args_where args)) (tweetTable db)))
                (cursorKey c) row) as (h & rest & -> & Hh).
    + apply StronglySorted_merge_sort; apply _.
    + rewrite merge_sort_Permutation. apply list_elem_of_In, filter_In.
      split; [by apply list_elem_of_In|done].
    + done.
    + destruct (Z.to_nat (args_take args)) as [|n] eqn:Hn; [lia|]. simpl.
      by eexists _, _.
  - unfold cursor_row in Hfind. apply list_elem_of_In in Hin.
    pose proof (find_none _ _ Hfind _ Hin) as Hno. simpl in Hno.
    unfold sortKey, cursorKey in Hkey. injection Hkey as Hd Hi.
    rewrite Hd, Hi, String.eqb_refl, Z.eqb_refl in Hno. done.
Qed.

End FindManyForward.

(** ** C2: the cursor is where the next page starts *)

(** C2, as stated, fails.  Walking [three_tweets] one tweet per page, the
    first page ends with [nextCursor = ("b", 2)], and the page requested with
    that cursor holds the tweet with key [("b", 2)] itself: not every tweet
    of the page is strictly after the cursor. *)
Lemma getInfiniteTweets_cursor_row_returned :
  page_nextCursor (getInfiniteTweets None (mkContext None three_tweets) 1 None)
    = Some (mkCursor "b" 2) ∧
  ¬ (∀ t, t ∈ page_tweets (getInfiniteTweets None (mkContext None three_tweets) 1
                             (Some (mkCursor "b" 2))) →
          strictly_after (mkCursor "b" 2) t).
Proof.
  split; [by vm_compute|].
  intros Hall.
  destruct (Hall (mkTweet "b" "second" 2 0 false (mkTweetUser "u" (Some "Una") None)))
    as [_ Hne].
  - vm_compute. left.
  - by apply Hne.
Qed.

(** C2, amended.  For a call of [getInfiniteTweets] with a cursor and limit
    [n >= 0], the cursor is an inclusive start point: every tweet of the page
    is at or after the cursor's sort key in the feed's order; and when
    [n >= 1] and a stored tweet that the filter admits has the cursor's key,
    the page begins with that tweet. *)
Theorem getInfiniteTweets_cursor_inclusive whereClause ctx limit c :
  0 <= limit →
  (∀ t, t ∈ page_tweets (getInfiniteTweets whereClause ctx limit (Some c)) →
        at_or_after c t) ∧
  (1 <= limit →
   ∀ row, row ∈ tweetTable (prisma ctx) → sortKey row = cursorKey c →
          matches (prisma ctx) whereClause row = true →
   ∃ t, head (page_tweets (getInfiniteTweets whereClause ctx limit (Some c))) = Some t ∧
        tweetKey t = cursorKey c).
Proof.
  intros Hlimit. rewrite getInfiniteTweets_unfold. simpl.
  set (args := findManyArgs whereClause (session_user_id <$> session ctx) limit (Some c)).
  split.
  - intros t (raw & -> & Hraw)%list_elem_of_fmap.
    apply splitNext_elem in Hraw.
    apply (tweet_findMany_from_cursor (prisma ctx) args c) in Hraw; [done|simpl; lia|done].
  - intros Hone row Hin Hkey Hmatch.
    destruct (tweet_findMany_head (prisma ctx) args c ltac:(simpl; lia) eq_refl row)
      as (h & rest & Hdata & Hh); [simpl; lia|done|done|done|].
    pose proof (tweet_findMany_length (prisma ctx) args ltac:(simpl; lia)) as Hlen.
    simpl in Hlen. rewrite Hdata in *.
    exists (toTweet (select (prisma ctx) (args_select_Likes args) h)).
    split; [|exact Hh].
    destruct (decide (Z.of_nat (length (select (prisma ctx) (args_select_Likes args) h :: rest))
                      <= limit)) as [Hall|Hmore].
    + by rewrite splitNext_all.
    + rewrite splitNext_more by lia. simpl.
      destruct (Z.to_nat limit) as [|n] eqn:Hn; [lia|]. done.
Qed.

Lemma getInfiniteTweets_cursor_inclusive_witness :
  ∃ t, head (page_tweets (getInfiniteTweets None (mkContext None three_tweets) 1
                            (Some (mkCursor "b" 2)))) = Some t ∧
       tweetKey t = cursorKey (mkCursor "b" 2).
Proof.
  destruct (getInfiniteTweets_cursor_inclusive None (mkContext None three_tweets) 1
              (mkCursor "b" 2) ltac:(lia)) as [_ Hhead].
  apply (Hhead ltac:(lia) (mkTweetRow "b" "second" 2 "u")).
  - simpl. apply list_elem_of_In. simpl. right. by left.
  - reflexivity.
  - reflexivity.
Defined.

(** ** The cache under [onSuccess] *)

Lemma updateData_None id addedLike oldData :
  updateData id addedLike oldData = None ↔ oldData = None.
Proof. by destruct oldData. Qed.

Lemma setInfiniteData_updateData_lookup id addedLike key (cache : QueryCache) k :
  setInfiniteData key (updateData id addedLike) cache !! k =
    if decide (k = key) then updateData id addedLike (cache !! k) else cache !! k.
Proof.
  unfold setInfiniteData.
  destruct (updateData id addedLike (cache !! key)) as [newData|] eqn:Hu.
  - rewrite lookup_insert. destruct (decide (key = k)) as [->|Hne].
    + by rewrite decide_True.
    + by rewrite decide_False.
  - apply updateData_None in Hu. destruct (decide (k = key)) as [->|]; [|done].
    by rewrite Hu.
Qed.

Lemma onSuccess_lookup card addedLike (cache : QueryCache) k :
  onSuccess card addedLike cache !! k =
    if decide (k ∈ [InfiniteFeedKey None; InfiniteFeedKey (Some true);
                    InfiniteProfileFeedKey (user_id (tweet_user card))])
    then updateData (tweet_id card) addedLike (cache !! k)
    else cache !! k.
Proof.
  unfold onSuccess. rewrite !setInfiniteData_updateData_lookup.
  repeat case_decide; simplify_eq; try done; exfalso;
    repeat (rewrite elem_of_cons in * ); rewrite elem_of_nil in *; tauto.
Qed.

Lemma updateTweet_other id addedLike m t : tweet_id t ≠ id → updateTweet id addedLike m t = t.
Proof.
  intros Hne. unfold updateTweet.
  destruct (String.eqb _ _) eqn:He; [|done]. by apply String.eqb_eq in He.
Qed.

Lemma updateTweet_same id addedLike m t :
  tweet_id t = id →
  tweet_likeCount (updateTweet id addedLike m t) = tweet_likeCount t + m ∧
  tweet_likedByMe (updateTweet id addedLike m t) = addedLike.
Proof. intros <-. unfold updateTweet. by rewrite String.eqb_refl. Qed.

Lemma lookup_map {A B} (f : A → B) (l : list A) (i : nat) : map f l !! i = f <$> l !! i.
Proof. exact (list_lookup_fmap f l i). Qed.

Lemma map_id_on {A} (f : A → A) (l : list A) : (∀ x, x ∈ l → f x = x) → map f l = l.
Proof.
  induction l as [|x l IH]; simpl; intros Hf; [done|].
  rewrite Hf by constructor. rewrite IH; [done|]. intros y Hy. apply Hf. by constructor.
Qed.

(** ** C3: the like result reaches the three cache slots *)

(** C3.  [onSuccess] with the mutation's [addedLike], run by the card of
    tweet [card], is a function of the cache alone (nothing is fetched).  For
    each of the three slots (the unfiltered feed [{}], the following-only feed
    [{ onlyFollowing: true }], the profile feed of the card's author): an
    unpopulated slot stays unpopulated; in a populated slot every entry of
    every page stays at its place, an entry with the card's id gets
    [likeCount] plus one for [addedLike = true] and minus one for [false] and
    [likedByMe = addedLike], any other entry is as before, and a slot with no
    entry for the card's id holds the data it held. *)
Theorem onSuccess_applies_addedLike (card : Tweet) (addedLike : bool) (cache : QueryCache)
                                    (key : QueryKey) :
  key ∈ [InfiniteFeedKey None; InfiniteFeedKey (Some true);
         InfiniteProfileFeedKey (user_id (tweet_user card))] →
  match cache !! key with
  | None => onSuccess card addedLike cache !! key = None
  | Some old =>
      ∃ new, onSuccess card addedLike cache !! key = Some new ∧
        (∀ i j page t,
           pages old !! i = Some page → page_tweets page !! j = Some t →
           ∃ page' t',
             pages new !! i = Some page' ∧ page_tweets page' !! j = Some t' ∧
             (tweet_id t = tweet_id card →
                tweet_likeCount t' = tweet_likeCount t + (if addedLike then 1 else -1) ∧
                tweet_likedByMe t' = addedLike) ∧
             (tweet_id t ≠ tweet_id card → t' = t)) ∧
        ((∀ page t, page ∈ pages old → t ∈ page_tweets page → tweet_id t ≠ tweet_id card) →
         new = old)
  end.
Proof.
  intros Hkey. rewrite onSuccess_lookup, decide_True by done.
  destruct (cache !! key) as [old|]; [|done].
  eexists. split; [reflexivity|]. cbn [pages pageParams]. split.
  - intros i j page t Hi Hj.
    exists (mkFeedPage
              (map (updateTweet (tweet_id card) addedLike (if addedLike then 1 else -1))
                   (page_tweets page))
              (page_nextCursor page)),
           (updateTweet (tweet_id card) addedLike (if addedLike then 1 else -1) t).
    rewrite lookup_map, Hi. cbn [page_tweets]. rewrite lookup_map, Hj.
    split_and!; [done|done| |].
    + apply updateTweet_same.
    + apply updateTweet_other.
  - intros Hnone. destruct old as [ps params]; simpl in *. f_equal.
    apply map_id_on. intros [ts next] Hp; simpl. f_equal.
    apply map_id_on. intros t Ht. apply updateTweet_other. by eapply (Hnone _ _ Hp).
Qed.

Lemma onSuccess_applies_addedLike_witness :
  ∃ new, onSuccess cached_tweet true global_feed_only !! InfiniteFeedKey None = Some new ∧
    ∃ page' t', pages new !! 0%nat = Some page' ∧ page_tweets page' !! 0%nat = Some t' ∧
                tweet_likeCount t' = 4 ∧ tweet_likedByMe t' = true.
Proof.
  pose proof (onSuccess_applies_addedLike cached_tweet true global_feed_only
                (InfiniteFeedKey None)) as Hw.
  unfold global_feed_only in Hw at 1. rewrite lookup_singleton_eq in Hw.
  destruct Hw as (new & Hnew & Hentries & _); [constructor|].
  exists new. split; [exact Hnew|].
  destruct (Hentries 0%nat 0%nat _ cached_tweet eq_refl eq_refl)
    as (page' & t' & Hp & Ht & Hsame & _).
  exists page', t'. destruct (Hsame eq_refl) as [Hcount Hliked].
  split_and!; [exact Hp|exact Ht|exact Hcount|exact Hliked].
Defined.

(** ** C10: the frame of the like update *)

Lemma Forall2_map_self {A} (R : A → A → Prop) (f : A → A) (l : list A) :
  (∀ x, R (f x) x) → Forall2 R (map f l) l.
Proof. intros HR. induction l; simpl; constructor; auto. Qed.

Lemma updateTweet_frame id addedLike m t : same_but_like id (updateTweet id addedLike m t) t.
Proof.
  unfold same_but_like. split_and!; try (unfold updateTweet; by destruct (String.eqb _ _)).
  apply updateTweet_other.
Qed.

(** C10.  The updater returns [undefined] for a slot that holds no data, and
    [onSuccess] leaves such a slot unpopulated.  On a populated slot the
    updated data has the same number of pages and the same [pageParams]; page
    by page the [nextCursor] and the number and order of tweets are the same;
    tweet by tweet [id], [content], [createdAt] and [user] are the same, and a
    tweet whose id is not the toggled one is the same in every field.  Slots
    other than the three that [onSuccess] names are not touched. *)
Theorem updateData_frame (id : string) (addedLike : bool) :
  updateData id addedLike None = None ∧
  (∀ old, ∃ new,
     updateData id addedLike (Some old) = Some new ∧
     length (pages new) = length (pages old) ∧
     pageParams new = pageParams old ∧
     Forall2 (same_page_but_like id) (pages new) (pages old)) ∧
  (∀ card (cache : QueryCache) key,
     tweet_id card = id → cache !! key = None →
     onSuccess card addedLike cache !! key = None) ∧
  (∀ card (cache : QueryCache) key,
     tweet_id card = id →
     key ∉ [InfiniteFeedKey None; InfiniteFeedKey (Some true);
            InfiniteProfileFeedKey (user_id (tweet_user card))] →
     onSuccess card addedLike cache !! key = cache !! key).
Proof.
  split_and!.
  - done.
  - intros old. eexists. split; [reflexivity|]. cbn [pages pageParams].
    split_and!; [by rewrite length_map|done|].
    apply (Forall2_map_self (same_page_but_like id)). intros page.
    unfold same_page_but_like; cbn [page_tweets page_nextCursor].
    split_and!; [done|by rewrite length_map|].
    apply (Forall2_map_self (same_but_like id)). intros t. apply updateTweet_frame.
  - intros card cache key <- Hnone. rewrite onSuccess_lookup, Hnone.
    by destruct (decide _).
  - intros card cache key <- Hkey. rewrite onSuccess_lookup. by rewrite decide_False.
Qed.

(** ** C9: what [InfiniteTweetList] renders *)

(** C9.  [InfiniteTweetList] does not render the loading or the error
    indicator: the render is the same whatever [isLoading] and [isError] are,
    since the two JSX expressions are evaluated and dropped.  With
    [isLoading = true] and no tweets yet it renders nothing, and so it does
    with [isError = true].  The "No Tweets" state is rendered exactly when
    the tweets list is present and empty. *)
Theorem InfiniteTweetList_drops_loading_and_error :
  InfiniteTweetList (mkProps true None None None) = None ∧
  InfiniteTweetList (mkProps false (Some true) None None) = None ∧
  (∀ loading error more ts,
     InfiniteTweetList (mkProps loading error more ts) =
     InfiniteTweetList (mkProps false None more ts)) ∧
  (∀ props, InfiniteTweetList props ≠ Some LoadingSpinner ∧
            InfiniteTweetList props ≠ Some ErrorHeading) ∧
  (∀ props, InfiniteTweetList props = Some NoTweetsHeading ↔ tweets props = Some []).
Proof.
  split_and!; [done|done|done| |].
  - intros [loading error more [ts|]]; unfold InfiniteTweetList, exprStatement; simpl; [|done].
    by destruct ts.
  - intros [loading error more [ts|]]; unfold InfiniteTweetList, exprStatement; simpl.
    + destruct ts; simpl; split; done.
    + split; done.
Qed.

(** * Further properties of the router and the client *)

(** ** A page in terms of stored rows *)

Lemma tweet_findMany_rows db args :
  tweet_findMany db args = map (select db (args_select_Likes args)) (selectedRows db args).
Proof. reflexivity. Qed.

Lemma removelast_map {A B} (f : A → B) (l : list A) :
  removelast (map f l) = map f (removelast l).
Proof.
  induction l as [|x [|y l] IH]; [done|done|].
  change (f x :: removelast (map f (y :: l)) = f x :: map f (removelast (y :: l))).
  by rewrite IH.
Qed.

Lemma last_map {A B} (f : A → B) (l : list A) : last (map f l) = f <$> last l.
Proof. exact (fmap_last f l). Qed.

Lemma getInfiniteTweets_rows whereClause ctx limit cursor :
  let viewer := session_user_id <$> session ctx in
  let rows := selectedRows (prisma ctx) (findManyArgs whereClause viewer limit cursor) in
  getInfiniteTweets whereClause ctx limit cursor =
    {| page_tweets := map (project (prisma ctx) viewer) (pageRows limit rows);
       page_nextCursor := pageNext limit rows |}.
Proof.
  intros viewer rows. rewrite getInfiniteTweets_unfold, tweet_findMany_rows.
  fold viewer. fold rows. cbn [args_select_Likes findManyArgs].
  unfold splitNext, pageRows, pageNext, pop. rewrite length_map.
  destruct (Z.of_nat (length rows) >? limit); [|by cbn [fst snd]; rewrite List.map_map].
  rewrite removelast_map, last_map.
  destruct (last rows) as [r|]; cbn [fst snd fmap option_fmap option_map];
    by rewrite List.map_map.
Qed.

Lemma sublist_List_filter {A} (f : A → bool) (l : list A) : List.filter f l `sublist_of` l.
Proof.
  induction l as [|x l IH]; simpl; [done|].
  destruct (f x); by constructor.
Qed.

Lemma selectedRows_sublist db args :
  selectedRows db args `sublist_of` orderedRows db (args_where args).
Proof.
  unfold selectedRows, lastn.
  assert (Hpos : match args_cursor args with
                 | None => orderedRows db (args_where args)
                 | Some c =>
                     match cursor_row db c with
                     | None => []
                     | Some _ =>
                         List.filter
                           (fun t => if args_take args <? 0
                                     then key_leb (sortKey t) (cursorKey c)
                                     else key_leb (cursorKey c) (sortKey t))
                           (orderedRows db (args_where args))
                     end
                 end `sublist_of` orderedRows db (args_where args)).
  { destruct (args_cursor args) as [c|]; [|done].
    destruct (cursor_row db c); [apply sublist_List_filter|apply sublist_nil_l]. }
  destruct (args_take args <? 0);
    (etrans; [|exact Hpos]); [apply sublist_drop|apply sublist_take].
Qed.

Lemma pageRows_sublist limit rows : pageRows limit rows `sublist_of` rows.
Proof.
  unfold pageRows. destruct (_ >? _); [|done].
  rewrite removelast_firstn_len. apply sublist_take.
Qed.

Lemma page_rows_sublist db args limit :
  pageRows limit (selectedRows db args) `sublist_of` orderedRows db (args_where args).
Proof. etrans; [apply pageRows_sublist|apply selectedRows_sublist]. Qed.

Lemma orderedRows_elem db w r :
  r ∈ orderedRows db w ↔ r ∈ tweetTable db ∧ matches db w r = true.
Proof.
  unfold orderedRows. rewrite merge_sort_Permutation.
  by rewrite list_elem_of_In, filter_In, <- list_elem_of_In.
Qed.

Lemma orderedRows_sorted db w : StronglySorted orderBy (orderedRows db w).
Proof. apply StronglySorted_merge_sort; apply _. Qed.

Lemma StronglySorted_sublist {A} (R : relation A) (l1 l2 : list A) :
  l1 `sublist_of` l2 → StronglySorted R l2 → StronglySorted R l1.
Proof.
  induction 1 as [|x l1 l2 Hsub IH|x l1 l2 Hsub IH]; intros Hs; [done| |].
  - apply StronglySorted_inv in Hs as [Hs Hall]. constructor; [by apply IH|].
    apply Forall_forall. intros y Hy. eapply Forall_forall in Hall; [done|].
    by eapply elem_of_sublist.
  - apply StronglySorted_inv in Hs as [Hs _]. by apply IH.
Qed.

Lemma user_id_select_user db userId : user_id (select_user db userId) = userId.
Proof.
  unfold select_user. destruct (List.find _ _) as [u|] eqn:Hf; [|done].
  apply find_some in Hf as [_ Hu]. by apply String.eqb_eq in Hu.
Qed.

Lemma selectedRows_sorted db args : StronglySorted orderBy (selectedRows db args).
Proof.
  eapply StronglySorted_sublist; [apply selectedRows_sublist|apply orderedRows_sorted].
Qed.

Lemma page_and_next limit rows c :
  pageNext limit rows = Some c →
  ∃ r, rows = pageRows limit rows ++ [r] ∧ c = rowCursor r.
Proof.
  unfold pageNext, pageRows. destruct (_ >? _); [|done].
  destruct (last rows) as [r|] eqn:Hlast; [|done]. intros [= <-].
  exists r. split; [|done].
  apply last_Some in Hlast as [l' ->]. by rewrite removelast_last.
Qed.

(** ** The order of a page *)

(** X1.  The tweets of a page are in feed order (descending [createdAt], then
    descending [id]), whatever the filter, the limit and the cursor; and a
    [nextCursor], when there is one, is at or after every tweet of the page
    in that order. *)
Theorem page_in_feed_order whereClause ctx limit cursor :
  StronglySorted feedOrder (page_tweets (getInfiniteTweets whereClause ctx limit cursor)) ∧
  (∀ next t,
     page_nextCursor (getInfiniteTweets whereClause ctx limit cursor) = Some next →
     t ∈ page_tweets (getInfiniteTweets whereClause ctx limit cursor) →
     key_leb (tweetKey t) (cursorKey next) = true).
Proof.
  rewrite getInfiniteTweets_rows. cbn [page_tweets page_nextCursor].
  set (viewer := session_user_id <$> session ctx).
  set (rows := selectedRows (prisma ctx) (findManyArgs whereClause viewer limit cursor)).
  assert (Hsorted : StronglySorted orderBy rows) by apply selectedRows_sorted.
  split.
  - apply (StronglySorted_fmap (project (prisma ctx) viewer) orderBy feedOrder).
    + intros x y Hxy. unfold feedOrder. by apply Is_true_true.
    + eapply StronglySorted_sublist; [apply pageRows_sublist|done].
  - intros next t (r & Hrows & ->)%page_and_next (r' & -> & Hr')%list_elem_of_fmap.
    rewrite Hrows in Hsorted.
    apply Is_true_true.
    apply (StronglySorted_app_1_elem_of orderBy _ _ r' r Hsorted Hr').
    by apply list_elem_of_singleton.
Qed.

Lemma pageRows_length limit rows :
  0 <= limit → (length rows <= Z.to_nat (limit + 1))%nat →
  (length (pageRows limit rows) <= Z.to_nat limit)%nat.
Proof.
  intros Hlimit Hlen. unfold pageRows.
  destruct (Z.of_nat (length rows) >? limit) eqn:Hmore; [|lia].
  rewrite removelast_firstn_len, length_take. lia.
Qed.

(** ** The size of a page *)

(** X2.  For a limit [n >= 0] a page has at most [n] tweets; the two feed
    procedures called without a limit return at most 10. *)
Theorem page_length_le_limit whereClause ctx limit cursor :
  0 <= limit →
  (length (page_tweets (getInfiniteTweets whereClause ctx limit cursor)) <= Z.to_nat limit)%nat ∧
  (∀ onlyFollowing,
     length (page_tweets (infiniteFeed (mkFeedInput onlyFollowing None cursor) ctx)) <= 10)%nat ∧
  (∀ userId,
     length (page_tweets (infiniteProfileFeed (mkProfileFeedInput userId None cursor) ctx)) <= 10)%nat.
Proof.
  assert (Hle : ∀ w n, 0 <= n →
            (length (page_tweets (getInfiniteTweets w ctx n cursor)) <= Z.to_nat n)%nat).
  { intros w n Hn. rewrite getInfiniteTweets_rows. cbn [page_tweets].
    rewrite length_map. apply pageRows_length; [done|].
    pose proof (tweet_findMany_length (prisma ctx)
                  (findManyArgs w (session_user_id <$> session ctx) n cursor)) as Hlen.
    rewrite tweet_findMany_rows, length_map in Hlen. apply Hlen. simpl. lia. }
  intros Hlimit. split_and!.
  - by apply Hle.
  - intros onlyFollowing. unfold infiniteFeed. cbn [in_limit in_cursor default from_option].
    apply (Hle _ 10). lia.
  - intros userId. unfold infiniteProfileFeed. cbn [pf_limit pf_cursor default from_option].
    apply (Hle _ 10). lia.
Qed.

Lemma page_length_le_limit_witness :
  (length (page_tweets (getInfiniteTweets None (mkContext None three_tweets) 2 None))
   <= Z.to_nat 2)%nat.
Proof.
  apply (page_length_le_limit None (mkContext None three_tweets) 2 None). lia.
Defined.

(** ** What a page holds *)

Lemma page_tweet_row whereClause ctx limit cursor t :
  t ∈ page_tweets (getInfiniteTweets whereClause ctx limit cursor) →
  ∃ r, r ∈ tweetTable (prisma ctx) ∧ matches (prisma ctx) whereClause r = true ∧
       t = project (prisma ctx) (session_user_id <$> session ctx) r.
Proof.
  rewrite getInfiniteTweets_rows. cbn [page_tweets].
  intros (r & -> & Hr)%list_elem_of_fmap. exists r.
  eapply elem_of_sublist in Hr; [|apply page_rows_sublist].
  apply orderedRows_elem in Hr as [Hin Hm]. done.
Qed.

(** X3.  Every tweet of a page is a stored tweet that the where clause
    admits, shown with its own id, content, creation time and author id; and
    when stored ids are unique no id occurs twice in a page. *)
Theorem page_holds_stored_tweets whereClause ctx limit cursor :
  (∀ t, t ∈ page_tweets (getInfiniteTweets whereClause ctx limit cursor) →
     ∃ r, r ∈ tweetTable (prisma ctx) ∧ matches (prisma ctx) whereClause r = true ∧
          tweet_id t = t_id r ∧ tweet_content t = t_content r ∧
          tweet_createdAt t = t_createdAt r ∧ user_id (tweet_user t) = t_userId r) ∧
  (NoDup (map t_id (tweetTable (prisma ctx))) →
   NoDup (map tweet_id (page_tweets (getInfiniteTweets whereClause ctx limit cursor)))).
Proof.
  split.
  - intros t (r & Hin & Hm & ->)%page_tweet_row. exists r.
    split_and!; [done|done|done|done|done|]. apply user_id_select_user.
  - intros Hnd. rewrite getInfiniteTweets_rows. cbn [page_tweets].
    rewrite List.map_map. change (λ x, tweet_id (project _ _ x)) with t_id.
    eapply (sublist_NoDup _ (map t_id (orderedRows (prisma ctx) whereClause))).
    + unfold orderedRows. rewrite merge_sort_Permutation.
      eapply sublist_NoDup; [exact Hnd|].
      apply (fmap_sublist t_id), sublist_List_filter.
    + apply (fmap_sublist t_id), page_rows_sublist.
Qed.

Lemma page_holds_stored_tweets_witness :
  NoDup (map tweet_id (page_tweets (getInfiniteTweets None (mkContext None three_tweets) 2 None))).
Proof.
  apply (page_holds_stored_tweets None (mkContext None three_tweets) 2 None).
  apply (bool_decide_unpack (NoDup (map t_id (tweetTable three_tweets)))).
  vm_compute. exact I.
Defined.

(** ** The two filters *)

(** X4.  Every tweet of a profile feed page is by the requested user. *)
Theorem infiniteProfileFeed_only_author input ctx t :
  t ∈ page_tweets (infiniteProfileFeed input ctx) →
  user_id (tweet_user t) = pf_userId input.
Proof.
  unfold infiniteProfileFeed. intros (r & _ & Hm & ->)%page_tweet_row.
  simpl in Hm. apply String.eqb_eq in Hm. cbn. by rewrite user_id_select_user.
Qed.

Lemma infiniteProfileFeed_only_author_witness :
  user_id (tweet_user (mkTweet "c" "third" 3 0 false (mkTweetUser "u" (Some "Una") None))) = "u".
Proof.
  apply (infiniteProfileFeed_only_author (mkProfileFeedInput "u" None None)
           (mkContext None three_tweets)).
  vm_compute. left.
Defined.

(** X5.  For a signed-in viewer who asks for [onlyFollowing], every tweet of
    the page is by an author whose followers include the viewer. *)
Theorem infiniteFeed_only_followed viewer db limit cursor t :
  t ∈ page_tweets (infiniteFeed (mkFeedInput (Some true) limit cursor)
                     (mkContext (Some viewer) db)) →
  ∃ author, author ∈ userTable db ∧ u_id author = user_id (tweet_user t) ∧
            session_user_id viewer ∈ u_followers author.
Proof.
  unfold infiniteFeed. cbn. intros (r & _ & Hm & ->)%page_tweet_row.
  simpl in Hm. unfold follows in Hm.
  destruct (List.find _ _) as [author|] eqn:Hf; [|done].
  apply find_some in Hf as [Hin Hid]. apply String.eqb_eq in Hid.
  apply existsb_exists in Hm as (f & Hfin & ->%String.eqb_eq).
  exists author. cbn. rewrite user_id_select_user.
  split_and!; [by apply list_elem_of_In|done|by apply list_elem_of_In].
Qed.

Lemma infiniteFeed_only_followed_witness :
  ∃ author,
    author ∈ [mkUserRow "u" None None ["v"]] ∧
    u_id author = user_id (tweet_user (mkTweet "a" "hi" 1 0 false (mkTweetUser "u" None None))) ∧
    "v" ∈ u_followers author.
Proof.
  apply (infiniteFeed_only_followed (mkSession "v")
           (mkDatabase [mkUserRow "u" None None ["v"]] [mkTweetRow "a" "hi" 1 "u"] [])
           None None).
  vm_compute. left.
Defined.

(** ** Like counts *)

(** X6.  For every tweet of a page, [likeCount] is the number of stored Like
    rows that reference the tweet, so it is never negative; and a tweet that
    is [likedByMe] has a [likeCount] of at least one. *)
Theorem page_likeCount whereClause ctx limit cursor t :
  t ∈ page_tweets (getInfiniteTweets whereClause ctx limit cursor) →
  tweet_likeCount t =
    Z.of_nat (length (List.filter (λ l, String.eqb (l_tweetId l) (tweet_id t))
                                  (likeTable (prisma ctx)))) ∧
  0 <= tweet_likeCount t ∧
  (tweet_likedByMe t = true → 1 <= tweet_likeCount t).
Proof.
  intros (r & _ & _ & ->)%page_tweet_row.
  split_and!; [done|unfold project, toTweet; simpl; lia|].
  unfold project, toTweet, select; simpl.
  destruct (session_user_id <$> session ctx) as [u|]; [|done].
  intros Hliked%Z.ltb_lt.
  pose proof (filter_filter_length (λ l, true) (λ l : LikeRow, String.eqb (l_userId l) u)
                (likes_of (prisma ctx) (t_id r))) as Hle.
  assert (Hall : ∀ ls : list LikeRow, List.filter (λ _, true) ls = ls).
  { induction ls as [|x ls IH]; simpl; [done|by rewrite IH]. }
  rewrite !Hall in Hle. lia.
Qed.

Lemma page_likeCount_witness :
  1 <= tweet_likeCount (mkTweet "b" "second" 2 1 true (mkTweetUser "u" None None)).
Proof.
  apply (page_likeCount None
           (mkContext (Some (mkSession "v"))
              (mkDatabase [] [mkTweetRow "a" "first" 1 "u"; mkTweetRow "b" "second" 2 "u"]
                          [mkLikeRow "v" "b"]))
           10 None (mkTweet "b" "second" 2 1 true (mkTweetUser "u" None None))).
  - vm_compute. left.
  - reflexivity.
Defined.

(** ** The viewer *)

(** X7.  The session changes a page of a given where clause in [likedByMe]
    only: the page served without a session is the page served to any viewer
    with [likedByMe] cleared, tweet by tweet, with the same [nextCursor]. *)
Theorem anonymous_page_is_viewer_page_unmarked whereClause db viewer limit cursor :
  getInfiniteTweets whereClause (mkContext None db) limit cursor =
    {| page_tweets :=
         map withoutViewer
             (page_tweets (getInfiniteTweets whereClause (mkContext viewer db) limit cursor));
       page_nextCursor :=
         page_nextCursor (getInfiniteTweets whereClause (mkContext viewer db) limit cursor) |}.
Proof.
  rewrite !getInfiniteTweets_rows. cbn [page_tweets page_nextCursor session prisma].
  change (selectedRows db (findManyArgs whereClause (session_user_id <$> viewer) limit cursor))
    with (selectedRows db (findManyArgs whereClause (session_user_id <$> None) limit cursor)).
  by rewrite List.map_map.
Qed.

(** ** An empty feed *)

Lemma merge_sort_nil {A} (R : relation A) `{∀ x y, Decision (R x y)} : merge_sort R [] = [].
Proof. reflexivity. Qed.

(** X8.  When the where clause admits no stored tweet, the page is empty and
    has no [nextCursor], for every limit (negative ones too: the popped item
    is [undefined] and no cursor is made of it) and every cursor; and
    [InfiniteTweetList] given that page's tweets renders "No Tweets". *)
Theorem empty_feed_page whereClause ctx limit cursor :
  (∀ r, r ∈ tweetTable (prisma ctx) → matches (prisma ctx) whereClause r = false) →
  getInfiniteTweets whereClause ctx limit cursor = {| page_tweets := []; page_nextCursor := None |} ∧
  ∀ loading error more,
    InfiniteTweetList
      (mkProps loading error more
               (Some (page_tweets (getInfiniteTweets whereClause ctx limit cursor))))
    = Some NoTweetsHeading.
Proof.
  intros Hnone.
  assert (Hrows : ∀ args, args_where args = whereClause → selectedRows (prisma ctx) args = []).
  { intros args Hw.
    assert (Hsub := selectedRows_sublist (prisma ctx) args).
    rewrite Hw in Hsub. unfold orderedRows in Hsub.
    assert (List.filter (matches (prisma ctx) whereClause) (tweetTable (prisma ctx)) = []) as Hf.
    { destruct (List.filter _ _) as [|r rs] eqn:Hf; [done|].
      assert (Hin : In r (List.filter (matches (prisma ctx) whereClause) (tweetTable (prisma ctx))))
        by (rewrite Hf; by left).
      apply filter_In in Hin as [Hin Hm]. apply list_elem_of_In in Hin.
      rewrite (Hnone r Hin) in Hm. done. }
    rewrite Hf, merge_sort_nil in Hsub. by apply sublist_nil_r in Hsub. }
  assert (Hpage : getInfiniteTweets whereClause ctx limit cursor =
                  {| page_tweets := []; page_nextCursor := None |}).
  { rewrite getInfiniteTweets_rows. cbv zeta. rewrite Hrows by done.
    unfold pageRows, pageNext. cbn [length]. by destruct (Z.of_nat 0 >? limit). }
  split; [exact Hpage|]. intros loading error more. by rewrite Hpage.
Qed.

Lemma empty_feed_page_witness :
  getInfiniteTweets (Some (WhereUserId "nobody")) (mkContext None three_tweets) (-3)
                    (Some (mkCursor "b" 2))
  = {| page_tweets := []; page_nextCursor := None |}.
Proof.
  apply (empty_feed_page (Some (WhereUserId "nobody")) (mkContext None three_tweets) (-3)
           (Some (mkCursor "b" 2))).
  intros r Hr. apply list_elem_of_In in Hr. simpl in Hr.
  destruct Hr as [<-|[<-|[<-|[]]]]; reflexivity.
Defined.

(** ** Pages by position in the feed *)

Lemma pageRows_take limit (l : list TweetRow) :
  0 <= limit →
  pageRows limit (take (Z.to_nat (limit + 1)) l) = take (Z.to_nat limit) l ∧
  pageNext limit (take (Z.to_nat (limit + 1)) l) = rowCursor <$> l !! Z.to_nat limit.
Proof.
  intros Hlimit. unfold pageRows, pageNext.
  replace (Z.to_nat (limit + 1)) with (S (Z.to_nat limit)) by lia.
  destruct (decide (length l <= Z.to_nat limit)%nat) as [Hshort|Hlong].
  - rewrite !(take_ge l) by lia.
    assert ((Z.of_nat (length l) >? limit) = false) as -> by lia.
    by rewrite lookup_ge_None_2 by lia.
  - assert ((Z.of_nat (length (take (S (Z.to_nat limit)) l)) >? limit) = true) as ->.
    { rewrite length_take_le by lia. apply Z.gtb_lt. lia. }
    rewrite removelast_firstn_len, last_lookup, length_take_le, take_take by lia.
    cbn [Nat.pred]. replace (Z.to_nat limit `min` S (Z.to_nat limit))%nat with (Z.to_nat limit) by lia.
    rewrite lookup_take_lt by lia. done.
Qed.

Lemma filter_all {A} (f : A → bool) (l : list A) :
  (∀ x, x ∈ l → f x = true) → List.filter f l = l.
Proof.
  induction l as [|x l IH]; intros Hf; simpl; [done|].
  rewrite Hf by constructor. f_equal. apply IH. intros y Hy. apply Hf. by constructor.
Qed.

(** In an ordered list with distinct keys, the rows at or after the key of
    the row at index [i] are the rows from index [i] on. *)
Lemma filter_from_index (l : list TweetRow) : ∀ i r,
  StronglySorted orderBy l → NoDup (map sortKey l) → l !! i = Some r →
  List.filter (λ t, key_leb (sortKey r) (sortKey t)) l = drop i l.
Proof.
  induction l as [|x l IH]; intros i r Hs Hnd Hi; [done|].
  apply StronglySorted_inv in Hs as [Hs Hall].
  apply NoDup_cons in Hnd as [Hx Hnd].
  destruct i as [|i]; simpl in *.
  - injection Hi as ->. rewrite key_leb_refl. f_equal.
    apply filter_all. intros y Hy. eapply Forall_forall in Hall; [|done].
    by apply Is_true_true.
  - assert (Hr : r ∈ l) by by eapply list_elem_of_lookup_2.
    destruct (key_leb (sortKey r) (sortKey x)) eqn:Hrx; [|by apply IH].
    exfalso. apply Hx.
    eapply Forall_forall in Hall; [|exact Hr]. apply Is_true_true in Hall.
    rewrite (key_leb_antisym _ _ Hall Hrx).
    apply list_elem_of_fmap. by exists r.
Qed.

Lemma orderedRows_keys_NoDup db w :
  NoDup (map t_id (tweetTable db)) → NoDup (map sortKey (orderedRows db w)).
Proof.
  intros Hnd. apply (NoDup_fmap_1 snd). rewrite <- list_fmap_compose.
  change (NoDup (map t_id (orderedRows db w))).
  unfold orderedRows. rewrite merge_sort_Permutation.
  eapply sublist_NoDup; [exact Hnd|]. apply (fmap_sublist t_id), sublist_List_filter.
Qed.

Lemma cursor_row_stored db r : r ∈ tweetTable db → is_Some (cursor_row db (rowCursor r)).
Proof.
  intros Hin. unfold cursor_row. destruct (List.find _ _) eqn:Hf; [by eexists|].
  apply list_elem_of_In in Hin.
  pose proof (find_none _ _ Hf _ Hin) as Hno. simpl in Hno.
  by rewrite String.eqb_refl, Z.eqb_refl in Hno.
Qed.

Lemma feed_window_rows whereClause ctx limit :
  0 <= limit →
  let viewer := session_user_id <$> session ctx in
  let feed := orderedRows (prisma ctx) whereClause in
  getInfiniteTweets whereClause ctx limit None =
    {| page_tweets := map (project (prisma ctx) viewer) (take (Z.to_nat limit) feed);
       page_nextCursor := rowCursor <$> feed !! Z.to_nat limit |} ∧
  (NoDup (map t_id (tweetTable (prisma ctx))) →
   ∀ i r, feed !! i = Some r →
     getInfiniteTweets whereClause ctx limit (Some (rowCursor r)) =
       {| page_tweets :=
            map (project (prisma ctx) viewer) (take (Z.to_nat limit) (drop i feed));
          page_nextCursor := rowCursor <$> feed !! (i + Z.to_nat limit)%nat |}).
Proof.
  intros Hlimit viewer feed. split.
  - rewrite getInfiniteTweets_rows. fold viewer.
    unfold selectedRows. cbn [findManyArgs args_take args_cursor args_where].
    assert ((limit + 1 <? 0) = false) as -> by lia. fold feed.
    by destruct (pageRows_take limit feed Hlimit) as [-> ->].
  - intros Hnd i r Hi. rewrite getInfiniteTweets_rows. fold viewer.
    unfold selectedRows. cbn [findManyArgs args_take args_cursor args_where].
    assert ((limit + 1 <? 0) = false) as -> by lia. fold feed.
    assert (Hr : r ∈ tweetTable (prisma ctx)).
    { apply list_elem_of_lookup_2 in Hi. by apply orderedRows_elem in Hi as [? _]. }
    destruct (cursor_row_stored _ _ Hr) as [r' ->].
    change (cursorKey (rowCursor r)) with (sortKey r).
    rewrite (filter_from_index feed i r);
      [|apply orderedRows_sorted|by apply orderedRows_keys_NoDup|done].
    destruct (pageRows_take limit (drop i feed) Hlimit) as [-> ->].
    by rewrite lookup_drop.
Qed.

(** X9.  Pages are windows of the ordered feed.  For a limit [n >= 0], the
    page requested without a cursor holds the first [n] tweets of the feed
    and its [nextCursor] is the key of the tweet at index [n], if there is
    one; and, stored ids being unique, the page requested with the key of the
    tweet at index [i] holds the [n] tweets from index [i] on and its
    [nextCursor] is the key of the tweet at index [i + n], if there is one. *)
Theorem page_is_window_of_feed whereClause ctx limit :
  0 <= limit →
  let viewer := session_user_id <$> session ctx in
  let feed := orderedRows (prisma ctx) whereClause in
  getInfiniteTweets whereClause ctx limit None =
    {| page_tweets := map (project (prisma ctx) viewer) (take (Z.to_nat limit) feed);
       page_nextCursor := rowCursor <$> feed !! Z.to_nat limit |} ∧
  (NoDup (map t_id (tweetTable (prisma ctx))) →
   ∀ i r, feed !! i = Some r →
     getInfiniteTweets whereClause ctx limit (Some (rowCursor r)) =
       {| page_tweets :=
            map (project (prisma ctx) viewer) (take (Z.to_nat limit) (drop i feed));
          page_nextCursor := rowCursor <$> feed !! (i + Z.to_nat limit)%nat |}).
Proof. apply feed_window_rows. Qed.

Lemma page_is_window_of_feed_witness :
  getInfiniteTweets None (mkContext None three_tweets) 1 (Some (mkCursor "b" 2)) =
    {| page_tweets :=
         map (project three_tweets None) (take 1 (drop 1 (orderedRows three_tweets None)));
       page_nextCursor := rowCursor <$> orderedRows three_tweets None !! 2%nat |}.
Proof.
  destruct (page_is_window_of_feed None (mkContext None three_tweets) 1 ltac:(lia))
    as [_ Hat].
  apply (Hat (bool_decide_unpack (NoDup (map t_id (tweetTable three_tweets)))
                ltac:(vm_compute; exact I))
             1%nat (mkTweetRow "b" "second" 2 "u")).
  reflexivity.
Defined.

(** ** Following [nextCursor] to the end *)

Lemma walk_from_index whereClause ctx limit :
  1 <= limit → NoDup (map t_id (tweetTable (prisma ctx))) →
  ∀ fuel i r,
    orderedRows (prisma ctx) whereClause !! i = Some r →
    (length (orderedRows (prisma ctx) whereClause) - i < fuel)%nat →
    walk fuel whereClause ctx limit (Some (rowCursor r)) =
      map (project (prisma ctx) (session_user_id <$> session ctx))
          (drop i (orderedRows (prisma ctx) whereClause)).
Proof.
  intros Hlimit Hnd.
  destruct (feed_window_rows whereClause ctx limit ltac:(lia)) as [_ Hat].
  specialize (Hat Hnd).
  set (feed := orderedRows (prisma ctx) whereClause) in *.
  induction fuel as [|fuel IH]; intros i r Hi Hfuel; [lia|].
  cbn [walk]. rewrite (Hat i r Hi). cbn [page_tweets page_nextCursor].
  destruct (feed !! (i + Z.to_nat limit)%nat) as [r'|] eqn:Hnext; cbn [fmap option_fmap option_map].
  - rewrite (IH (i + Z.to_nat limit)%nat r' Hnext).
    + rewrite <- List.map_app. f_equal.
      rewrite <- drop_drop. apply take_drop.
    + apply lookup_lt_Some in Hnext. lia.
  - rewrite app_nil_r. f_equal. apply take_ge.
    apply lookup_ge_None in Hnext. rewrite length_drop. lia.
Qed.

(** X10.  With a limit of at least one and unique stored ids, following
    [nextCursor] from the first page until a page comes without one yields
    every tweet that the where clause admits exactly once, in feed order: the
    concatenated pages are the whole feed.  More requests than the feed has
    tweets are never needed. *)
Theorem walk_visits_whole_feed whereClause ctx limit fuel :
  1 <= limit →
  NoDup (map t_id (tweetTable (prisma ctx))) →
  (length (orderedRows (prisma ctx) whereClause) < fuel)%nat →
  walk fuel whereClause ctx limit None =
    map (project (prisma ctx) (session_user_id <$> session ctx))
        (orderedRows (prisma ctx) whereClause).
Proof.
  intros Hlimit Hnd Hfuel.
  destruct (feed_window_rows whereClause ctx limit ltac:(lia)) as [Hfirst _].
  destruct fuel as [|fuel]; [lia|].
  cbn [walk]. rewrite Hfirst. cbn [page_tweets page_nextCursor].
  set (feed := orderedRows (prisma ctx) whereClause) in *.
  destruct (feed !! Z.to_nat limit) as [r'|] eqn:Hnext; cbn [fmap option_fmap option_map].
  - rewrite (walk_from_index whereClause ctx limit Hlimit Hnd fuel (Z.to_nat limit) r' Hnext).
    + fold feed. rewrite <- List.map_app. by rewrite take_drop.
    + fold feed. apply lookup_lt_Some in Hnext. lia.
  - rewrite app_nil_r. f_equal. apply take_ge.
    apply lookup_ge_None in Hnext. lia.
Qed.

Lemma walk_visits_whole_feed_witness :
  walk 4 None (mkContext None three_tweets) 2 None =
    map (project three_tweets None) (orderedRows three_tweets None).
Proof.
  apply (walk_visits_whole_feed None (mkContext None three_tweets) 2 4).
  - lia.
  - apply (bool_decide_unpack (NoDup (map t_id (tweetTable three_tweets)))).
    vm_compute. exact I.
  - vm_compute. lia.
Defined.

(** ** A refetch after [toggleLike] and the client's local update *)

Lemma filter_filter_implied {A} (f g : A → bool) (l : list A) :
  (∀ x, f x = true → g x = true) → List.filter f (List.filter g l) = List.filter f l.
Proof.
  intros Hfg. induction l as [|x l IH]; simpl; [done|].
  destruct (g x) eqn:Hg, (f x) eqn:Hf; simpl; rewrite ?Hf, ?IH; try done.
  by rewrite (Hfg x Hf) in Hg.
Qed.

Lemma filter_filter_comm {A} (f g : A → bool) (l : list A) :
  List.filter f (List.filter g l) = List.filter g (List.filter f l).
Proof.
  induction l as [|x l IH]; simpl; [done|].
  destruct (g x) eqn:Hg, (f x) eqn:Hf; simpl; rewrite ?Hf, ?Hg, ?IH; done.
Qed.

Lemma filter_none {A} (f : A → bool) (l : list A) :
  (∀ x, x ∈ l → f x = false) → List.filter f l = [].
Proof.
  induction l as [|x l IH]; intros Hf; simpl; [done|].
  rewrite Hf by constructor. apply IH. intros y Hy. apply Hf. by constructor.
Qed.

Lemma project_after_like db u id r :
  project (mkDatabase (userTable db) (tweetTable db) (likeTable db ++ [mkLikeRow u id]))
          (Some u) r
  = updateTweet id true 1 (project db (Some u) r).
Proof.
  unfold project, toTweet, select, updateTweet, likes_of, select_user. simpl.
  rewrite !List.filter_app. simpl.
  destruct (String.eqb_spec (t_id r) id) as [->|Hne].
  - rewrite !String.eqb_refl. simpl. rewrite String.eqb_refl.
    rewrite !length_app. simpl. f_equal; [lia|].
    apply Z.ltb_lt. lia.
  - destruct (String.eqb_spec id (t_id r)) as [Heq|_]; [by symmetry in Heq|].
    simpl. by rewrite !app_nil_r.
Qed.

Lemma project_after_unlike db u id r :
  at_most_one_like db → mkLikeRow u id ∈ likeTable db →
  project (mkDatabase (userTable db) (tweetTable db)
             (List.filter (λ l, negb (like_key_eqb u id l)) (likeTable db)))
          (Some u) r
  = updateTweet id false (-1) (project db (Some u) r).
Proof.
  intros Hinv Hin.
  unfold project, toTweet, select, updateTweet, likes_of, select_user. simpl.
  destruct (String.eqb_spec (t_id r) id) as [->|Hne].
  - set (tid := λ l : LikeRow, String.eqb (l_tweetId l) id).
    set (nk := λ l : LikeRow, negb (like_key_eqb u id l)).
    set (uid := λ l : LikeRow, String.eqb (l_userId l) u).
    assert (Hcount : length (List.filter tid (likeTable db)) =
                     S (length (List.filter tid (List.filter nk (likeTable db))))).
    { rewrite (filter_split_perm (like_key_eqb u id) (List.filter tid (likeTable db))) at 1.
      rewrite (filter_filter_implied (like_key_eqb u id) tid).
      - fold (likeRowsFor db u id). rewrite likeRowsFor_present by done.
        fold nk. by rewrite (filter_filter_comm nk tid).
      - intros x [_ Ht]%andb_true_iff. exact Ht. }
    assert (Hmine : List.filter uid (List.filter tid (List.filter nk (likeTable db))) = []).
    { apply filter_none. intros x Hx.
      apply list_elem_of_In, filter_In in Hx as [Hx Ht].
      apply filter_In in Hx as [_ Hnk]. unfold nk, like_key_eqb in Hnk.
      unfold uid. unfold tid in Ht. rewrite Ht, andb_true_r in Hnk.
      by apply negb_true_iff in Hnk. }
    rewrite Hmine, Hcount. simpl length. f_equal. lia.
  - rewrite (filter_filter_implied (λ l, String.eqb (l_tweetId l) (t_id r))
                                   (λ l, negb (like_key_eqb u id l))); [done|].
    intros x Hx%String.eqb_eq. apply negb_true_iff. unfold like_key_eqb.
    destruct (String.eqb_spec (l_tweetId x) id) as [Heq|_]; [congruence|].
    apply andb_false_r.
Qed.

(** X11.  The client's local update agrees with the server.  When a viewer's
    [toggleLike] on tweet [id] succeeds on a store with at most one Like per
    pair, every page the viewer would then be served is the page they were
    served before with the updater of [onSuccess] applied to its tweets (the
    tweet [id] gets [likeCount] plus or minus one and [likedByMe = addedLike],
    every other tweet is as before) and with the same [nextCursor]. *)
Theorem refetch_after_toggleLike_is_local_update db viewer id db' out :
  at_most_one_like db →
  toggleLike id (mkContext (Some viewer) db) = Ok (db', out) →
  ∀ whereClause limit cursor,
    getInfiniteTweets whereClause (mkContext (Some viewer) db') limit cursor =
      {| page_tweets :=
           map (updateTweet id (addedLike out) (if addedLike out then 1 else -1))
               (page_tweets
                  (getInfiniteTweets whereClause (mkContext (Some viewer) db) limit cursor));
         page_nextCursor :=
           page_nextCursor
             (getInfiniteTweets whereClause (mkContext (Some viewer) db) limit cursor) |}.
Proof.
  intros Hinv Htoggle whereClause limit cursor.
  rewrite !getInfiniteTweets_rows. cbn [page_tweets page_nextCursor session prisma fmap option_fmap option_map].
  rewrite List.map_map.
  destruct (decide (mkLikeRow (session_user_id viewer) id ∈ likeTable db)) as [Hin|Hnot].
  - rewrite toggleLike_present in Htoggle by done. injection Htoggle as <- <-.
    cbn [addedLike]. f_equal.
    apply map_ext. intros r. by apply project_after_unlike.
  - rewrite toggleLike_absent in Htoggle by done. injection Htoggle as <- <-.
    cbn [addedLike]. f_equal.
    apply map_ext. intros r. apply project_after_like.
Qed.

Lemma refetch_after_toggleLike_is_local_update_witness :
  getInfiniteTweets None
    (mkContext (Some (mkSession "v"))
       (mkDatabase (userTable three_tweets) (tweetTable three_tweets) [mkLikeRow "v" "b"]))
    2 None
  = {| page_tweets :=
         map (updateTweet "b" true 1)
             (page_tweets (getInfiniteTweets None (mkContext (Some (mkSession "v")) three_tweets)
                             2 None));
       page_nextCursor :=
         page_nextCursor (getInfiniteTweets None (mkContext (Some (mkSession "v")) three_tweets)
                            2 None) |}.
Proof.
  apply (refetch_after_toggleLike_is_local_update three_tweets (mkSession "v") "b"
           (mkDatabase (userTable three_tweets) (tweetTable three_tweets) [mkLikeRow "v" "b"])
           {| addedLike := true |}).
  - intros userId tweetId. unfold likeRowsFor. simpl. lia.
  - reflexivity.
Defined.

(** ** A new tweet in the feeds *)

Lemma head_of_feed_newest (feed : list TweetRow) (row : TweetRow) :
  StronglySorted orderBy feed → row ∈ feed →
  (∀ x, x ∈ feed → x = row ∨ t_createdAt x < t_createdAt row) →
  head feed = Some row.
Proof.
  intros Hs Hin Hnew. destruct feed as [|h rest]; [by apply elem_of_nil in Hin|].
  simpl. f_equal.
  destruct (Hnew h ltac:(constructor)) as [->|Hold]; [done|].
  apply elem_of_cons in Hin as [->|Hin]; [done|].
  apply StronglySorted_inv in Hs as [_ Hall].
  eapply Forall_forall in Hall; [|exact Hin].
  apply Is_true_true, key_leb_spec in Hall. simpl in Hall. lia.
Qed.

Lemma created_tweet_first_page content newId now author db db' row w reader limit :
  create content newId now (mkContext (Some author) db) = Ok (db', row) →
  (∀ t, t ∈ tweetTable db → t_createdAt t < now) →
  1 <= limit →
  matches db' w (mkTweetRow newId content now (session_user_id author)) = true →
  head (page_tweets (getInfiniteTweets w (mkContext reader db') limit None)) =
    Some (project db' (session_user_id <$> reader)
            (mkTweetRow newId content now (session_user_id author))).
Proof.
  intros Hcreate Hnewest Hlimit Hmatch.
  unfold create, protectedProcedure, tweet_create in Hcreate. simpl in Hcreate.
  destruct (existsb _ _); [done|]. simpl in Hcreate. injection Hcreate as <- <-.
  set (row := mkTweetRow newId content now (session_user_id author)) in *.
  set (db' := mkDatabase (userTable db) (tweetTable db ++ [row]) (likeTable db)) in *.
  destruct (feed_window_rows w (mkContext reader db') limit ltac:(lia)) as [-> _].
  cbn [page_tweets prisma session].
  assert (Hhead : head (orderedRows db' w) = Some row).
  { apply head_of_feed_newest.
    - apply orderedRows_sorted.
    - apply orderedRows_elem. split; [|done].
      simpl. apply elem_of_app. right. by apply list_elem_of_singleton.
    - intros x [Hx _]%orderedRows_elem. simpl in Hx.
      apply elem_of_app in Hx as [Hx|Hx%list_elem_of_singleton]; [|by left].
      right. by apply Hnewest. }
  destruct (orderedRows db' w) as [|h rest]; [done|]. injection Hhead as ->.
  destruct (Z.to_nat limit) as [|n] eqn:Hn; [lia|]. done.
Qed.

(** X12.  A tweet created with a creation time later than every stored
    tweet's is the first tweet of the first page (limit at least one, 10 when
    left out) of the unfiltered feed and of its author's profile feed, for
    every reader, with the content given, the new id and the author's id. *)
Theorem created_tweet_heads_the_feeds content newId now author db db' row reader limit :
  create content newId now (mkContext (Some author) db) = Ok (db', row) →
  (∀ t, t ∈ tweetTable db → t_createdAt t < now) →
  1 <= default 10 limit →
  ∃ shown,
    head (page_tweets (infiniteFeed (mkFeedInput None limit None) (mkContext reader db')))
      = Some shown ∧
    head (page_tweets (infiniteProfileFeed
                         (mkProfileFeedInput (session_user_id author) limit None)
                         (mkContext reader db')))
      = Some shown ∧
    tweet_id shown = newId ∧ tweet_content shown = content ∧
    tweet_createdAt shown = now ∧ user_id (tweet_user shown) = session_user_id author.
Proof.
  intros Hcreate Hnewest Hlimit.
  exists (project db' (session_user_id <$> reader)
            (mkTweetRow newId content now (session_user_id author))).
  split_and!; [| |done|done|done|apply user_id_select_user].
  - unfold infiniteFeed. cbn [in_onlyFollowing in_limit in_cursor session].
    replace (match session_user_id <$> reader with
             | Some currentUserId =>
                 if negb (default false None) then None
                 else Some (WhereUserFollowersSome currentUserId)
             | None => None
             end) with (@None TweetWhereInput) by by destruct reader.
    by eapply created_tweet_first_page.
  - unfold infiniteProfileFeed. cbn [pf_userId pf_limit pf_cursor].
    eapply created_tweet_first_page; [done|done|done|]. simpl. apply String.eqb_refl.
Qed.

Lemma created_tweet_heads_the_feeds_witness :
  ∃ shown,
    head (page_tweets (infiniteFeed (mkFeedInput None None None)
            (mkContext None
               (mkDatabase (userTable three_tweets)
                           (tweetTable three_tweets ++ [mkTweetRow "d" "fourth" 4 "u"])
                           (likeTable three_tweets)))))
      = Some shown ∧
    head (page_tweets (infiniteProfileFeed (mkProfileFeedInput "u" None None)
            (mkContext None
               (mkDatabase (userTable three_tweets)
                           (tweetTable three_tweets ++ [mkTweetRow "d" "fourth" 4 "u"])
                           (likeTable three_tweets)))))
      = Some shown ∧
    tweet_id shown = "d" ∧ tweet_content shown = "fourth" ∧
    tweet_createdAt shown = 4 ∧ user_id (tweet_user shown) = "u".
Proof.
  apply (created_tweet_heads_the_feeds "fourth" "d" 4 (mkSession "u") three_tweets
           (mkDatabase (userTable three_tweets)
                       (tweetTable three_tweets ++ [mkTweetRow "d" "fourth" 4 "u"])
                       (likeTable three_tweets))
           (mkTweetRow "d" "fourth" 4 "u") None None).
  - reflexivity.
  - intros t Ht. apply list_elem_of_In in Ht. simpl in Ht.
    destruct Ht as [<-|[<-|[<-|[]]]]; simpl; lia.
  - simpl. lia.
Defined.

(** ** A like and its undoing in the cache *)

Lemma updateTweet_undo id a t :
  (tweet_id t = id → tweet_likedByMe t = negb a) →
  updateTweet id (negb a) (if negb a then 1 else -1)
    (updateTweet id a (if a then 1 else -1) t) = t.
Proof.
  intros Hflag. unfold updateTweet.
  destruct (String.eqb_spec (tweet_id t) id) as [Heq|Hne]; simpl.
  - rewrite (proj2 (String.eqb_eq _ _) Heq). pose proof (Hflag Heq) as Hb.
    destruct t as [i c d n b usr], a; simpl in *; subst b; f_equal; lia.
  - by rewrite (proj2 (String.eqb_neq _ _) Hne).
Qed.

(** X13.  Undoing a like in the cache.  If in the three slots every cached
    entry of the card's tweet has [likedByMe] opposite to [addedLike] (as it
    is before a toggle that reports [addedLike]), then [onSuccess] with
    [addedLike] followed by [onSuccess] with the opposite result gives back
    the cache as it was. *)
Theorem onSuccess_undone_by_opposite card (a : bool) (cache : QueryCache) :
  (∀ key data page t,
     key ∈ [InfiniteFeedKey None; InfiniteFeedKey (Some true);
            InfiniteProfileFeedKey (user_id (tweet_user card))] →
     cache !! key = Some data → page ∈ pages data → t ∈ page_tweets page →
     tweet_id t = tweet_id card → tweet_likedByMe t = negb a) →
  onSuccess card (negb a) (onSuccess card a cache) = cache.
Proof.
  intros Hflags. apply map_eq. intros k. rewrite !onSuccess_lookup.
  destruct (decide (k ∈ _)) as [Hk|Hk]; [|done].
  destruct (cache !! k) as [[ps params]|] eqn:Hlook; [|done].
  simpl. do 2 f_equal. rewrite List.map_map.
  apply map_id_on. intros [ts next] Hp. simpl. f_equal. rewrite List.map_map.
  apply map_id_on. intros t Ht. apply updateTweet_undo.
  intros Hid. by apply (Hflags k _ _ t Hk Hlook Hp Ht).
Qed.

Lemma onSuccess_undone_by_opposite_witness :
  onSuccess cached_tweet (negb true) (onSuccess cached_tweet true global_feed_only)
  = global_feed_only.
Proof.
  apply (onSuccess_undone_by_opposite cached_tweet true global_feed_only).
  intros key data page t _ Hlook Hp Ht Hid.
  unfold global_feed_only in Hlook.
  apply lookup_singleton_Some in Hlook as [_ <-]. simpl in Hp.
  apply list_elem_of_singleton in Hp as ->. simpl in Ht.
  apply list_elem_of_In in Ht. simpl in Ht.
  destruct Ht as [<-|[<-|[]]]; [reflexivity|]. simpl in Hid. discriminate Hid.
Defined.

(** ** A toggle and the other viewers *)

Lemma Forall2_map_both {A B} (R : B → B → Prop) (f g : A → B) (l : list A) :
  (∀ x, R (f x) (g x)) → Forall2 R (map f l) (map g l).
Proof. intros HR. induction l; simpl; constructor; auto. Qed.

Lemma toggleLike_store db viewer id db' out :
  toggleLike id (mkContext (Some viewer) db) = Ok (db', out) →
  userTable db' = userTable db ∧ tweetTable db' = tweetTable db ∧
  (likeTable db' = likeTable db ++ [mkLikeRow (session_user_id viewer) id] ∨
   likeTable db' =
     List.filter (λ l, negb (like_key_eqb (session_user_id viewer) id l)) (likeTable db)).
Proof.
  destruct (decide (mkLikeRow (session_user_id viewer) id ∈ likeTable db)) as [Hin|Hnot].
  - rewrite toggleLike_present by done. intros [= <- _]. simpl. auto.
  - rewrite toggleLike_absent by done. intros [= <- _]. simpl. auto.
Qed.

Lemma project_other_viewer db db' u id reader r :
  userTable db' = userTable db →
  (likeTable db' = likeTable db ++ [mkLikeRow u id] ∨
   likeTable db' = List.filter (λ l, negb (like_key_eqb u id l)) (likeTable db)) →
  reader ≠ Some u →
  tweet_likedByMe (project db' reader r) = tweet_likedByMe (project db reader r) ∧
  same_but_like id (project db' reader r) (project db reader r).
Proof.
  intros Husers Hlikes Hreader.
  unfold same_but_like, project, toTweet, select, likes_of, select_user. simpl.
  rewrite Husers.
  assert (Hother : t_id r ≠ id →
            List.filter (λ l, String.eqb (l_tweetId l) (t_id r)) (likeTable db') =
            List.filter (λ l, String.eqb (l_tweetId l) (t_id r)) (likeTable db)).
  { intros Hne. destruct Hlikes as [-> | ->].
    - rewrite List.filter_app. simpl.
      destruct (String.eqb_spec id (t_id r)) as [Heq|_]; [by symmetry in Heq|].
      apply app_nil_r.
    - apply filter_filter_implied.
      intros x Hx%String.eqb_eq. apply negb_true_iff. unfold like_key_eqb.
      destruct (String.eqb_spec (l_tweetId x) id) as [Heq|_]; [congruence|].
      apply andb_false_r. }
  assert (Hmine : ∀ u', u' ≠ u →
            List.filter (λ l, String.eqb (l_userId l) u')
              (List.filter (λ l, String.eqb (l_tweetId l) (t_id r)) (likeTable db')) =
            List.filter (λ l, String.eqb (l_userId l) u')
              (List.filter (λ l, String.eqb (l_tweetId l) (t_id r)) (likeTable db))).
  { intros u' Hne. destruct Hlikes as [-> | ->].
    - rewrite !List.filter_app. simpl.
      destruct (String.eqb (id) (t_id r)); simpl; [|by rewrite !app_nil_r].
      destruct (String.eqb_spec u u') as [Heq|_]; [by symmetry in Heq|].
      by rewrite !app_nil_r.
    - rewrite (filter_filter_comm (λ l, String.eqb (l_tweetId l) (t_id r))).
      apply filter_filter_implied.
      intros x Hx%String.eqb_eq. apply negb_true_iff. unfold like_key_eqb.
      destruct (String.eqb_spec (l_userId x) u) as [Heq|_]; [congruence|done]. }
  split_and!; try done.
  - destruct reader as [u'|]; [|done]. by rewrite Hmine by congruence.
  - intros Hne. by rewrite (Hother Hne).
Qed.

(** X14.  A viewer's [toggleLike] on tweet [id] changes nothing that another
    reader (another user, or nobody) is shown except the [likeCount] of tweet
    [id]: the reader's page keeps its [nextCursor], its tweets stay in
    place with their [likedByMe], id, content, creation time and author, and
    every tweet other than [id] is the same in every field. *)
Theorem toggleLike_leaves_other_readers db viewer id db' out reader :
  toggleLike id (mkContext (Some viewer) db) = Ok (db', out) →
  session_user_id <$> reader ≠ Some (session_user_id viewer) →
  ∀ whereClause limit cursor,
    page_nextCursor (getInfiniteTweets whereClause (mkContext reader db') limit cursor) =
    page_nextCursor (getInfiniteTweets whereClause (mkContext reader db) limit cursor) ∧
    Forall2 (λ t' t, tweet_likedByMe t' = tweet_likedByMe t ∧ same_but_like id t' t)
      (page_tweets (getInfiniteTweets whereClause (mkContext reader db') limit cursor))
      (page_tweets (getInfiniteTweets whereClause (mkContext reader db) limit cursor)).
Proof.
  intros Htoggle Hreader whereClause limit cursor.
  destruct (toggleLike_store _ _ _ _ _ Htoggle) as (Husers & Htweets & Hlikes).
  rewrite !getInfiniteTweets_rows. cbn [page_tweets page_nextCursor session prisma].
  assert (Hrows : ∀ args, selectedRows db' args = selectedRows db args).
  { intros args. unfold selectedRows, orderedRows, cursor_row, matches, follows.
    by rewrite Husers, Htweets. }
  rewrite Hrows. split; [done|].
  apply Forall2_map_both. intros r.
  by apply (project_other_viewer db db' (session_user_id viewer)).
Qed.

Lemma toggleLike_leaves_other_readers_witness :
  Forall2 (λ t' t, tweet_likedByMe t' = tweet_likedByMe t ∧ same_but_like "b" t' t)
    (page_tweets (getInfiniteTweets None
       (mkContext (Some (mkSession "w"))
          (mkDatabase (userTable three_tweets) (tweetTable three_tweets) [mkLikeRow "v" "b"]))
       2 None))
    (page_tweets (getInfiniteTweets None (mkContext (Some (mkSession "w")) three_tweets) 2 None)).
Proof.
  apply (toggleLike_leaves_other_readers three_tweets (mkSession "v") "b"
           (mkDatabase (userTable three_tweets) (tweetTable three_tweets) [mkLikeRow "v" "b"])
           {| addedLike := true |} (Some (mkSession "w"))).
  - reflexivity.
  - simpl. intros [= Heq].
Defined.

(** ** Unique tweet ids *)



